(** * wikidata_qid_generator: the identifier resolution engine

    A shallow embedding of [generalized_merge_qids.py] (and of the token
    function it shares with [generate_qs_csv.py]), with the properties of
    its disambiguator, token generator, batching, retry client, query
    builder and output arrangement. *)

From Stdlib Require Import ZArith NArith List Ascii String Lia.
From Stdlib Require QArith.
From stdpp Require Import base option list gmap sorting.

Local Open Scope N_scope.

(** ** Python strings

    A Python [str] is a sequence of Unicode code points; a code point is a
    number below [0x110000]. *)

Abbreviation str := (list N).

(** An ASCII literal of the source, as a [str]. *)
Definition lit (s : string) : str :=
  (λ a, N_of_ascii a) <$> list_ascii_of_string s.

(** [s.startswith(t)]. *)
Fixpoint startswith (t s : str) : bool :=
  match t, s with
  | [], _ => true
  | _ :: _, [] => false
  | a :: t', b :: s' => (a =? b) && startswith t' s'
  end.

(** [t in s] on strings: [t] occurs in [s] as a contiguous run. *)
Fixpoint str_in (t s : str) : bool :=
  startswith t s ||
  match s with
  | [] => false
  | _ :: s' => str_in t s'
  end.

(** [str.isspace] on one character: the white space that [str.strip()]
    removes. *)
Definition isspace (c : N) : bool :=
  ((9 <=? c) && (c <=? 13)) || ((28 <=? c) && (c <=? 32)) ||
  (c =? 133) || (c =? 160) || (c =? 5760) ||
  ((8192 <=? c) && (c <=? 8202)) || (c =? 8232) || (c =? 8233) ||
  (c =? 8239) || (c =? 8287) || (c =? 12288).

Fixpoint lstrip (s : str) : str :=
  match s with
  | [] => []
  | c :: s' => if isspace c then lstrip s' else s
  end.

Definition rstrip (s : str) : str := reverse (lstrip (reverse s)).

(** [s.strip()]. *)
Definition strip (s : str) : str := rstrip (lstrip s).

(** ** Table cells

    [pd.read_csv(..., dtype=str)] gives a string or NaN (a missing cell). *)

Abbreviation cell := (option str).

(** [.fillna('')] on one cell: a missing cell becomes the empty string. *)
Definition fillna (c : cell) : str := default [] c.

(** [str(x)] on one cell: NaN prints as [nan]. *)
Definition py_str (c : cell) : str := default (lit "nan") c.

(** ** Hits and the hit index *)

(** One candidate: [{"qid": ..., "desc": ...}]. *)
Record Hit := mkHit { qid : str; desc : str }.

(** [uri.rsplit("/", 1)[-1]]: what follows the last slash. *)
Fixpoint qid_from_uri (uri : str) : str :=
  match uri with
  | [] => []
  | c :: rest =>
      if str_in (lit "/") rest then qid_from_uri rest
      else if c =? 47 then rest else uri
  end.

(** One binding of a response, after the [.get(..., {}).get("value", '')]
    defaults: code, item, desc. *)
Record Binding := mkBinding { b_code : str; b_item : str; b_desc : str }.

(** [code_hits.setdefault(code, []).append({...})], guarded by
    [if code and item]. *)
Definition add_binding (code_hits : gmap str (list Hit)) (b : Binding)
  : gmap str (list Hit) :=
  match b_code b, b_item b with
  | _ :: _, _ :: _ =>
      <[b_code b := default [] (code_hits !! b_code b)
                    ++ [mkHit (qid_from_uri (b_item b)) (b_desc b)]]> code_hits
  | _, _ => code_hits
  end.

Definition add_bindings (code_hits : gmap str (list Hit)) (bs : list Binding)
  : gmap str (list Hit) :=
  foldl add_binding code_hits bs.

(** ** The disambiguator: the row loop of [main] *)

(** What the loop carries: [chosen], [unresolved], [ambiguous]. *)
Record Tally := mkTally {
  chosen : list str;
  unresolved : nat;
  ambiguous : nat
}.

Definition tally0 : Tally := mkTally [] 0 0.

(** [tag = f"[EXT:{token}]"]. *)
Definition ext_tag (token : str) : str := lit "[EXT:" ++ token ++ lit "]".

(** [with_ext = [h for h in hits if tag in h["desc"]]]. *)
Definition with_ext (tag : str) (hits : list Hit) : list Hit :=
  List.filter (λ h, str_in tag (desc h)) hits.

(** The body of [for i, row in df.iterrows()], for the row whose code cell
    is [c] and whose token is [token]. *)
Definition resolve_row (code_hits : gmap str (list Hit)) (c : cell)
    (token : str) (st : Tally) : Tally :=
  let code := strip (py_str c) in
  let hits := default [] (code_hits !! code) in
  match hits with
  | [] => mkTally (chosen st ++ [[]]) (S (unresolved st)) (ambiguous st)
  | h0 :: _ =>
      if (length hits =? 1)%nat || bool_decide (token = []) then
        mkTally (chosen st ++ [qid h0]) (unresolved st) (ambiguous st)
      else
        match with_ext (ext_tag token) hits with
        | [w] => mkTally (chosen st ++ [qid w]) (unresolved st) (ambiguous st)
        | _ => mkTally (chosen st ++ [[]]) (unresolved st) (S (ambiguous st))
        end
  end.

(** The loop: row [i] reads [ext_tokens[i]] ([None] is the IndexError of a
    token list shorter than the table). *)
Fixpoint resolve_rows (code_hits : gmap str (list Hit)) (ext_tokens : list str)
    (i : nat) (cells : list cell) (st : Tally) : option Tally :=
  match cells with
  | [] => Some st
  | c :: rest =>
      match ext_tokens !! i with
      | None => None
      | Some token =>
          resolve_rows code_hits ext_tokens (S i) rest
            (resolve_row code_hits c token st)
      end
  end.

(** ** The token generator

    [hashlib.sha1] is the Secure Hash Algorithm 1 of FIPS 180-4, written
    here on 32-bit words held in [N] with the wrap-around spelled out. *)

Module SHA1.

Definition add32 (x y : N) : N := (x + y) mod 4294967296.

(** Rotate a 32-bit word left by [n] bits. *)
Definition rotl (n x : N) : N :=
  N.lor (N.shiftl x n mod 4294967296) (N.shiftr x (32 - n)).

(** The [k] low bytes of [x], most significant first. *)
Fixpoint be_bytes (k : nat) (x : N) : list N :=
  match k with
  | O => []
  | S k' => be_bytes k' (x / 256) ++ [x mod 256]
  end.

(** Padding: a one bit, zeros up to 56 modulo 64 bytes, then the length
    of the message in bits on 8 bytes. *)
Definition pad (msg : list N) : list N :=
  let len := N.of_nat (length msg) in
  msg ++ [128] ++ replicate (N.to_nat ((119 - len mod 64) mod 64)) 0
      ++ be_bytes 8 (8 * len).

(** Big-endian 32-bit words of a byte string. *)
Fixpoint words (bs : list N) : list N :=
  match bs with
  | b0 :: b1 :: b2 :: b3 :: rest =>
      (((b0 * 256 + b1) * 256 + b2) * 256 + b3) :: words rest
  | _ => []
  end.

(** Blocks of 16 words. *)
Fixpoint blocks (fuel : nat) (ws : list N) : list (list N) :=
  match fuel, ws with
  | O, _ | _, [] => []
  | S fuel', _ => take 16 ws :: blocks fuel' (drop 16 ws)
  end.

(** The message schedule: [n] more words after those of [w]. *)
Fixpoint schedule (n : nat) (w : list N) : list N :=
  match n with
  | O => w
  | S n' =>
      let t := length w in
      let at_ k := nth (t - k) w 0 in
      schedule n'
        (w ++ [rotl 1 (N.lxor (N.lxor (at_ 3%nat) (at_ 8%nat))
                              (N.lxor (at_ 14%nat) (at_ 16%nat)))])
  end.

Record state := mkState { ha : N; hb : N; hc : N; hd : N; he : N }.

Definition init : state :=
  mkState 0x67452301 0xEFCDAB89 0x98BADCFE 0x10325476 0xC3D2E1F0.

(** The round function and constant of round [t]. *)
Definition f_k (t : nat) (b c d : N) : N * N :=
  if (t <? 20)%nat then
    (N.lor (N.land b c) (N.land (N.lxor b 0xFFFFFFFF) d), 0x5A827999)
  else if (t <? 40)%nat then (N.lxor (N.lxor b c) d, 0x6ED9EBA1)
  else if (t <? 60)%nat then
    (N.lor (N.lor (N.land b c) (N.land b d)) (N.land c d), 0x8F1BBCDC)
  else (N.lxor (N.lxor b c) d, 0xCA62C1D6).

Definition round (s : state) (tw : nat * N) : state :=
  let '(f, k) := f_k tw.1 (hb s) (hc s) (hd s) in
  mkState (add32 (add32 (add32 (add32 (rotl 5 (ha s)) f) (he s)) k) tw.2)
          (ha s) (rotl 30 (hb s)) (hc s) (hd s).

Definition compress (h : state) (block : list N) : state :=
  let w := schedule 64 block in
  let s := foldl round h (zip (seq 0 80) w) in
  mkState (add32 (ha h) (ha s)) (add32 (hb h) (hb s)) (add32 (hc h) (hc s))
          (add32 (hd h) (hd s)) (add32 (he h) (he s)).

Definition sha1 (msg : list N) : state :=
  let ws := words (pad msg) in
  foldl compress init (blocks (length ws) ws).

Definition hex_digit (n : N) : N := if n <? 10 then 48 + n else 87 + n.

(** The [k] low hexadecimal digits of [x], most significant first. *)
Fixpoint hex (k : nat) (x : N) : str :=
  match k with
  | O => []
  | S k' => hex k' (x / 16) ++ [hex_digit (x mod 16)]
  end.

(** [.hexdigest()]: 40 lower-case hexadecimal characters. *)
Definition hexdigest (s : state) : str :=
  hex 8 (ha s) ++ hex 8 (hb s) ++ hex 8 (hc s) ++ hex 8 (hd s) ++ hex 8 (he s).

End SHA1.

(** [s.encode("utf-8", "ignore")]: the UTF-8 bytes of the code points; a
    lone surrogate ([U+D800] to [U+DFFF]) cannot be encoded and, under
    ["ignore"], is left out. *)
Definition utf8_char (c : N) : list N :=
  if c <? 0x80 then [c]
  else if c <? 0x800 then [0xC0 + c / 64; 0x80 + c mod 64]
  else if c <? 0x10000 then
    if (0xD800 <=? c) && (c <=? 0xDFFF) then []
    else [0xE0 + c / 4096; 0x80 + (c / 64) mod 64; 0x80 + c mod 64]
  else [0xF0 + c / 262144; 0x80 + (c / 4096) mod 64;
        0x80 + (c / 64) mod 64; 0x80 + c mod 64].

Definition utf8_ignore (s : str) : list N := s ≫= utf8_char.

(** [sha1_token] of [generalized_merge_qids.py]:
    [basis = f"{fid}|{(coords_json or '')[:256]}"], then the first 12
    characters of the hexadecimal SHA-1 digest of its encoding. *)
Definition sha1_token (fid coords_json : str) : str :=
  let basis := fid ++ lit "|" ++ take 256 coords_json in
  take 12 (SHA1.hexdigest (SHA1.sha1 (utf8_ignore basis))).

(** [ext_token] of [generate_qs_csv.py], which writes the tag that
    [sha1_token] later looks for. *)
Definition ext_token (fid coords_json : str) : str :=
  let basis := fid ++ lit "|" ++ take 256 coords_json in
  take 12 (SHA1.hexdigest (SHA1.sha1 (utf8_ignore basis))).

(** ** Tables

    A [DataFrame] read with [dtype=str]: its number of rows and its labelled
    columns, in order. The model is of tables whose labels are distinct. *)

Record DataFrame := mkDF {
  nrows : nat;
  columns : list (str * list cell)
}.

(** Every column has one cell per row. *)
Definition wf_df (df : DataFrame) : Prop :=
  Forall (λ col, length col.2 = nrows df) (columns df).

(** [list(df.columns)]. *)
Definition labels (df : DataFrame) : list str := (columns df).*1.

(** [name in df.columns]. *)
Definition has_column (df : DataFrame) (name : str) : bool :=
  bool_decide (name ∈ labels df).

(** [df[name]] for a table with distinct labels; [None] is the KeyError.
    With a repeated label [df[name]] is a table, not a column: that case is
    outside the model, and the properties of [df[name]] assume distinct
    labels. *)
Definition get_column (df : DataFrame) (name : str) : option (list cell) :=
  (λ r, r.2.2) <$> list_find (λ col, col.1 = name) (columns df).

(** [df.columns = [c.strip() for c in df.columns]]. *)
Definition strip_labels (df : DataFrame) : DataFrame :=
  mkDF (nrows df) (prod_map strip id <$> columns df).

(** ** Tokens of the rows

    [ext_tokens] of [main]: one token per row when both context columns are
    there, the empty token for every row otherwise. *)
Definition ext_tokens_of (df : DataFrame) : list str :=
  match get_column df (lit "_feature_id"), get_column df (lit "_coords_json") with
  | Some fids, Some cjs =>
      zip_with (λ fid cj, sha1_token (fillna fid) (fillna cj)) fids cjs
  | _, _ => replicate (nrows df) []
  end.

(** ** Codes and batches *)

(** The order of [sorted] on strings: lexicographic on code points. *)
Fixpoint str_leb (a b : str) : bool :=
  match a, b with
  | [], _ => true
  | _ :: _, [] => false
  | x :: a', y :: b' =>
      if x <? y then true else if y <? x then false else str_leb a' b'
  end.

Definition str_le (a b : str) : Prop := str_leb a b.

#[global] Instance str_le_dec : RelDecision str_le.
Proof. intros a b. unfold str_le. apply _. Defined.

(** [sorted(...)] of a collection of strings. *)
Definition sorted (l : list str) : list str := merge_sort str_le l.

(** [codes = sorted({str(x).strip() for x in
    df[code_col].fillna('').astype(str) if str(x).strip()})]. *)
Definition codes_of (col : list cell) : list str :=
  let trimmed := (λ x, strip (fillna x)) <$> col in
  let kept := List.filter (λ c, negb (bool_decide (c = []))) trimmed in
  sorted (elements (list_to_set kept : gset str)).

(** [range(0, stop, step)] for [0 ≤ stop]; [None] is the ValueError of a
    zero step. *)
Definition py_range (stop step : Z) : option (list Z) :=
  if (step =? 0)%Z then None
  else if (step <? 0)%Z then Some []
  else Some ((λ k, Z.of_nat k * step)%Z <$> seq 0 (Z.to_nat ((stop + step - 1) / step))).

(** [l[i:j]], with the clamping of Python slices. *)
Definition slice {A} (l : list A) (i j : Z) : list A :=
  let n := Z.of_nat (length l) in
  let clamp k := if (k <? 0)%Z then Z.max 0 (k + n) else Z.min k n in
  take (Z.to_nat (clamp j - clamp i)) (drop (Z.to_nat (clamp i)) l).

(** [(codes[i:i+batch_size] for i in range(0, len(codes), batch_size))]. *)
Definition batches_of (codes : list str) (batch_size : Z)
  : option (list (list str)) :=
  match py_range (Z.of_nat (length codes)) batch_size with
  | None => None
  | Some starts => Some ((λ i, slice codes i (i + batch_size)%Z) <$> starts)
  end.

(** ** The query builder *)

(** [sep.join(parts)]. *)
Fixpoint join (sep : str) (parts : list str) : str :=
  match parts with
  | [] => []
  | [p] => p
  | p :: rest => p ++ sep ++ join sep rest
  end.

(** [build_values_list]: the codes that are not blank, each with its
    double quotes (chr(34)) removed and then put between double quotes,
    joined by spaces. *)
Definition build_values_list (codes : list str) : str :=
  join (lit " ")
    ((λ c, [34] ++ List.filter (λ x, negb (x =? 34)) c ++ [34])
       <$> List.filter (λ c, negb (bool_decide (strip c = []))) codes).

(** [re.match(r"^P\d+$", p)]: the letter P, one or more decimal digits,
    then the end of the string or a last line feed. [is_decimal] is the
    decimal-digit class of the Unicode database, taken as given. *)
Definition match_P_digits (is_decimal : N → bool) (p : str) : bool :=
  match p with
  | c :: ds =>
      let ds' := match reverse ds with
                 | x :: r => if x =? 10 then reverse r else ds
                 | [] => ds
                 end in
      (c =? 80) && negb (bool_decide (ds' = [])) && forallb is_decimal ds'
  | [] => false
  end.

(** The [unions] list of [build_sparql_for_codes]. *)
Definition unions_of (is_decimal : N → bool) (props : list str) : list str :=
  (λ p, lit "?item wdt:" ++ p ++ lit " ?code .")
    <$> List.filter (match_P_digits is_decimal) (strip <$> props).

Definition union_block (is_decimal : N → bool) (props : list str) : str :=
  match unions_of is_decimal props with
  | [] => lit "{ ?item wdt:P528 ?code . }"
  | us => join (lit " UNION ") ((λ u, lit "{" ++ u ++ lit "}") <$> us)
  end.

Definition nl : str := [10].

Definition build_sparql_for_codes (is_decimal : N → bool)
    (props codes : list str) (lang_desc : str) : str :=
  nl ++ lit "SELECT ?item ?code ?desc WHERE {" ++ nl
     ++ lit "  VALUES ?code { " ++ build_values_list codes ++ lit " }" ++ nl
     ++ lit "  " ++ union_block is_decimal props ++ nl
     ++ lit "  OPTIONAL {" ++ nl
     ++ lit "    ?item schema:description ?desc ." ++ nl
     ++ lit "    FILTER (LANG(?desc) = " ++ [34] ++ lang_desc ++ [34] ++ lit ")" ++ nl
     ++ lit "  }" ++ nl
     ++ lit "}" ++ nl.

(** The decimal digits of the Unicode database (category Nd, version 14):
    every run has ten digits, and the list holds the zero of each run. *)
Definition decimal_zeros : list N :=
  [48; 1632; 1776; 1984; 2406; 2534; 2662; 2790; 2918; 3046; 3174; 3302;
   3430; 3558; 3664; 3792; 3872; 4160; 4240; 6112; 6160; 6470; 6608; 6784;
   6800; 6992; 7088; 7232; 7248; 42528; 43216; 43264; 43472; 43504; 43600;
   44016; 65296; 66720; 68912; 69734; 69872; 69942; 70096; 70384; 70736;
   70864; 71248; 71360; 71472; 71904; 72016; 72784; 73040; 73120; 92768;
   92864; 93008; 120782; 120792; 120802; 120812; 120822; 123200; 123632;
   125264; 130032].

Definition unicode_decimal (c : N) : bool :=
  existsb (λ z, (z <=? c) && (c <=? z + 9)) decimal_zeros.

(** ** The retry client *)

(** The numbers of the back-off arithmetic: a Python float raised to an
    [int] power, the sum of two floats, a float times an [int], and the
    constant [0.1]. *)
Class Arith (F : Type) := {
  f_pow : F → Z → F;
  f_add : F → F → F;
  f_mul : F → Z → F;
  f_tenth : F
}.

(** What an attempt can raise inside the [try]. *)
Inductive exn :=
  | TransportError                 (* raised by [requests.post] itself *)
  | Retryable (status : Z)         (* [requests.HTTPError(f"Retryable {status}")] *)
  | HTTPError (status : Z)         (* [r.raise_for_status()] *)
  | JSONDecodeError.               (* [r.json()] on a body that is not JSON *)

(** A response: its status and its body as [r.json()] reads it ([None]
    when the body does not decode). A body that decodes is taken to be a
    SPARQL result, read as its list of bindings; JSON of another shape is
    outside the model. *)
Record Response := mkResponse {
  status_code : Z;
  json : option (list Binding)
}.

(** [requests.post(...)]: a transport failure or a response. *)
Inductive posted :=
  | PostFailed
  | PostReturned (r : Response).

(** The body of the [try]: the value returned or the exception raised. *)
Definition attempt_body (p : posted) : exn + list Binding :=
  match p with
  | PostFailed => inl TransportError
  | PostReturned r =>
      if bool_decide (status_code r ∈ [429; 500; 502; 503; 504]%Z) then
        inl (Retryable (status_code r))
      else if ((400 <=? status_code r) && (status_code r <? 600))%Z then
        inl (HTTPError (status_code r))
      else
        match json r with
        | None => inl JSONDecodeError
        | Some data => inr data
        end
  end.

(** What the client does to the outside: requests and sleeps. *)
Inductive event (F : Type) :=
  | Post (attempt : Z)
  | Sleep (seconds : F).
Arguments Post {F} attempt.
Arguments Sleep {F} seconds.

(** [sleep_s = (backoff ** (attempt - 1)) + 0.1 * attempt]. *)
Definition sleep_s `{Arith F} (backoff : F) (attempt : Z) : F :=
  f_add (f_pow backoff (attempt - 1)) (f_mul f_tenth attempt).

(** The [while True] loop of [http_post_sparql]; [net k] is what the [k]-th
    request of this send meets. [None] is a loop cut by the fuel. *)
Fixpoint http_post_sparql_loop `{Arith F} (net : Z → posted) (retries : Z)
    (backoff : F) (fuel : nat) (attempt : Z) (trace : list (event F))
  : option ((exn + list Binding) * list (event F)) :=
  match fuel with
  | O => None
  | S fuel' =>
      let attempt := (attempt + 1)%Z in
      let trace := trace ++ [Post attempt] in
      match attempt_body (net attempt) with
      | inr data => Some (inr data, trace)
      | inl e =>
          if (attempt >=? retries)%Z then Some (inl e, trace)
          else http_post_sparql_loop net retries backoff fuel' attempt
                 (trace ++ [Sleep (sleep_s backoff attempt)])
      end
  end.

(** [http_post_sparql]: the loop never runs more than [max(1, retries)]
    times (see [http_post_sparql_returns]). *)
Definition http_post_sparql `{Arith F} (net : Z → posted) (retries : Z)
    (backoff : F) : option ((exn + list Binding) * list (event F)) :=
  http_post_sparql_loop net retries backoff (Z.to_nat (Z.max 1 retries)) 0 [].



(** ** The output table *)

(** [df[name] = values]: the column is replaced where it is, or added last;
    [None] is the ValueError of a wrong length. *)
Definition set_column (df : DataFrame) (name : str) (values : list cell)
  : option DataFrame :=
  if bool_decide (length values = nrows df) then
    if has_column df name then
      Some (mkDF (nrows df)
              ((λ col, if bool_decide (col.1 = name) then (name, values) else col)
                 <$> columns df))
    else Some (mkDF (nrows df) (columns df ++ [(name, values)]))
  else None.

(** [l.remove(x)] where [x in l]: the first occurrence goes. *)
Fixpoint py_remove (x : str) (l : list str) : list str :=
  match l with
  | [] => []
  | y :: l' => if bool_decide (y = x) then l' else y :: py_remove x l'
  end.

(** [l.index(x)]. *)
Definition py_index (x : str) (l : list str) : option nat :=
  fst <$> list_find (λ y, y = x) l.

(** [l.insert(i, x)]. *)
Definition py_insert {A} (i : nat) (x : A) (l : list A) : list A :=
  take i l ++ x :: drop i l.

(** [df[cols]]: the columns with these labels, in this order. *)
Definition select (df : DataFrame) (cols : list str) : DataFrame :=
  mkDF (nrows df)
    (cols ≫= λ name, List.filter (λ col, bool_decide (col.1 = name)) (columns df)).

(** The end of [main]: [df["wikidata"] = chosen], then the column moved
    next to the code column. [None] is a ValueError. *)
Definition arrange (df : DataFrame) (code_col : str) (chosen : list str)
  : option DataFrame :=
  match set_column df (lit "wikidata") (Some <$> chosen) with
  | None => None
  | Some df' =>
      let cols := labels df' in
      let cols := if bool_decide (lit "wikidata" ∈ cols)
                  then py_remove (lit "wikidata") cols else cols in
      match py_index code_col cols with
      | None => None
      | Some at_code => Some (select df' (py_insert (at_code + 1)%nat (lit "wikidata") cols))
      end
  end.

(** The value of column [name] in row [i]: [None] when the table has no
    such column or the cell is missing. *)
Definition row_value (df : DataFrame) (name : str) (i : nat) : option str :=
  match get_column df name with
  | Some col => default None (col !! i)
  | None => None
  end.

(** Exact rational arithmetic, for running the client on examples. *)
Definition Arith_Q : Arith QArith_base.Q := {|
  f_pow := QArith_base.Qpower;
  f_add := QArith_base.Qplus;
  f_mul := λ x k, QArith_base.Qmult x (QArith_base.inject_Z k);
  f_tenth := QArith_base.Qmake 1 10
|}.



(** The pattern in the words of the specification: an ASCII letter
    followed by digits. *)
Definition letter_then_digits (is_decimal : N → bool) (p : str) : bool :=
  match p with
  | c :: ds =>
      (((65 <=? c) && (c <=? 90)) || ((97 <=? c) && (c <=? 122)))
      && negb (bool_decide (ds = [])) && forallb is_decimal ds
  | [] => false
  end.

(** The pattern the builder applies to a trimmed entry: the letter P
    followed by one or more decimal digits. *)
Definition P_then_digits (is_decimal : N → bool) (p : str) : bool :=
  match p with
  | c :: ds => (c =? 80) && negb (bool_decide (ds = [])) && forallb is_decimal ds
  | [] => false
  end.

(** The match clause of a property. *)
Definition clause (p : str) : str := lit "?item wdt:" ++ p ++ lit " ?code .".

(** ** The run

    [main] from the table on: the tokens, the codes, one send per batch
    merged into the hit index, the row loop, and the output table. The code
    column is the one [select_code_column] returned; the throttle between
    batches and the messages printed are left out. *)

(** How a run can end without a table. *)
Inductive failure :=
  | KeyError                 (* no column of that label *)
  | ValueError               (* a zero batch size, or no place for the column *)
  | IndexError               (* a row without a token *)
  | Raised (e : exn)         (* the last failure of a send *)
  | Unfinished.              (* a send cut by the fuel *)

(** The [for batch in ...] loop. *)
Fixpoint fetch_hits `{Arith F} (net : str → Z → posted) (match_props : list str)
    (lang : str) (retries : Z) (backoff : F) (batches : list (list str))
    (code_hits : gmap str (list Hit)) (trace : list (event F))
  : failure + (gmap str (list Hit) * list (event F)) :=
  match batches with
  | [] => inr (code_hits, trace)
  | batch :: rest =>
      let q := build_sparql_for_codes unicode_decimal match_props batch lang in
      match http_post_sparql (net q) retries backoff with
      | None => inl Unfinished
      | Some (inl e, _) => inl (Raised e)
      | Some (inr data, tr) =>
          fetch_hits net match_props lang retries backoff rest
            (add_bindings code_hits data) (trace ++ tr)
      end
  end.

Definition main `{Arith F} (net : str → Z → posted) (df0 : DataFrame)
    (code_col : str) (match_props : list str) (lang : str)
    (batch_size retries : Z) (backoff : F)
  : failure + (DataFrame * Tally * list (event F)) :=
  let df := strip_labels df0 in
  let ext_tokens := ext_tokens_of df in
  match get_column df code_col with
  | None => inl KeyError
  | Some col =>
      match batches_of (codes_of col) batch_size with
      | None => inl ValueError
      | Some batches =>
          match fetch_hits net match_props lang retries backoff batches ∅ [] with
          | inl err => inl err
          | inr (code_hits, trace) =>
              match resolve_rows code_hits ext_tokens 0 col tally0 with
              | None => inl IndexError
              | Some tally =>
                  match arrange df code_col (chosen tally) with
                  | None => inl ValueError
                  | Some out => inr (out, tally, trace)
                  end
              end
          end
      end
  end.

(** ** Other functions of [generalized_merge_qids.py] *)

(** [chunked(seq, n)]: [seq[i:i+n]] for [i] in [range(0, len(seq), n)];
    [None] is the ValueError of a zero step. *)
Definition chunked {A} (seq : list A) (n : Z) : option (list (list A)) :=
  match py_range (Z.of_nat (length seq)) n with
  | None => None
  | Some starts => Some ((λ i, slice seq i (i + n)%Z) <$> starts)
  end.

(** [s.endswith(t)]. *)
Definition endswith (t s : str) : bool := startswith (reverse t) (reverse s).

(** The word [codigo] with its accent (o acute, U+00F3), as in the source. *)
Definition codigo_accent : str := [99; 243; 100; 105; 103; 111].

(** The score [heuristic_code_candidates] gives a column label; [lower] is
    [str.lower], whose case tables are taken as given. *)
Definition score (lower : str → str) (c : str) : nat :=
  let cl := lower c in
  ((if str_in (lit "codigo") cl || str_in codigo_accent cl
    then 3 else 0)
   + (if str_in (lit "code") cl then 2 else 0)
   + (if bool_decide (cl = lit "id") || startswith (lit "id_") cl
         || endswith (lit "_id") cl
      then 1 else 0)
   + (if str_in (lit "circuit") cl then 1 else 0))%nat.

(** The order of [ranked.sort(reverse=True)] on [(score, label)] pairs:
    the greater pair first. *)
Definition pair_ge (a b : nat * str) : Prop :=
  (b.1 < a.1)%nat ∨ (a.1 = b.1 ∧ str_le b.2 a.2).

#[global] Instance pair_ge_dec : RelDecision pair_ge.
Proof. intros a b. unfold pair_ge. apply _. Defined.

(** [heuristic_code_candidates(columns)]. *)
Definition heuristic_code_candidates (lower : str → str) (columns : list str)
  : list str :=
  let ranked :=
    (λ c, (score lower c, c))
      <$> List.filter (λ c, negb (score lower c =? 0)%nat) columns in
  (merge_sort pair_ge ranked).*2.

(** [select_code_column(df, override, configured)]; [None] is its
    ValueError. *)
Definition select_code_column (lower : str → str) (df : DataFrame)
    (override : option str) (configured : list str) : option str :=
  let given :=
    match override with
    | Some o => negb (bool_decide (o = [])) && has_column df o
    | None => false
    end in
  if given then override
  else
    match List.find (λ c, has_column df c) configured with
    | Some c => Some c
    | None => head (heuristic_code_candidates lower (labels df))
    end.

(** [str.lower] on ASCII text. *)
Definition ascii_lower (s : str) : str :=
  (λ c, if (65 <=? c) && (c <=? 90) then c + 32 else c) <$> s.

(** ** Functions of [generate_qs_csv.py] *)

(** [re.match(r"^\d{4}-\d{2}-\d{2}$", s)]: four digits, a hyphen, two
    digits, a hyphen, two digits, then the end of the string or a last line
    feed. *)
Definition match_date (is_decimal : N → bool) (s : str) : bool :=
  let shape (t : str) :=
    match t with
    | [y1; y2; y3; y4; h1; m1; m2; h2; d1; d2] =>
        forallb is_decimal [y1; y2; y3; y4; m1; m2; d1; d2]
        && (h1 =? 45) && (h2 =? 45)
    | _ => false
    end in
  shape s
  || ((length s =? 11)%nat && bool_decide (last s = Some 10) && shape (take 10 s)).

(** [as_time_str(s)] on a string. *)
Definition as_time_str (is_decimal : N → bool) (s : str) : str :=
  if bool_decide (s = []) then []
  else if startswith (lit "+") s && endswith (lit "/11") s then s
  else if match_date is_decimal s then lit "+" ++ s ++ lit "T00:00:00Z/11"
  else [].

(** The label of a row of [main]: [code or "Linea/circuito del SIN"], with
    [code] the trimmed cell. *)
Definition qs_label (code_cell : str) : str :=
  let code := strip code_cell in
  if bool_decide (code = []) then lit "Linea/circuito del SIN" else code.

(** The default description, as the source file spells it. *)
Definition default_description : str :=
  lit "Linea/circuito del SIN de pa" ++ [0x221A; 0x2260] ++ lit "s".

(** [desc_text_es] of a row of [main]: the trimmed TRAMO cell or the
    default, then the tag of the row's token; the token is taken on the
    trimmed coordinates cell. *)
Definition qs_description (tramo_cell fid_cell coords_cell : str) : str :=
  let tramo := strip tramo_cell in
  let coords_json := strip coords_cell in
  let token := ext_token fid_cell coords_json in
  (if bool_decide (tramo = []) then default_description else tramo)
    ++ lit " [EXT:" ++ token ++ lit "]".

(** [qid_cell] of a row of [main]: the cell when it starts with Q. *)
Definition qs_qid_cell (qid_cell : str) : str :=
  if startswith (lit "Q") qid_cell then qid_cell else [].

(* ================================================================== *)
(** * Properties *)

(** ** Strings *)

Lemma startswith_spec (t s : str) :
  startswith t s = true ↔ ∃ b, s = t ++ b.
Proof.
  revert s. induction t as [|a t IH]; intros s; simpl.
  - split; [intros _; by exists s | done].
  - destruct s as [|b s]; simpl.
    + split; [done | intros [? ?]; done].
    + rewrite andb_true_iff, N.eqb_eq, IH. split.
      * intros [-> [r ->]]. by exists r.
      * intros [r Hr]. injection Hr as -> ->. split; [done | by exists r].
Qed.

(** [str_in] is the literal-substring test. *)
Lemma str_in_spec (t s : str) :
  str_in t s = true ↔ ∃ a b, s = a ++ t ++ b.
Proof.
  induction s as [|c s IH]; simpl.
  - rewrite orb_false_r, startswith_spec. split.
    + intros [b Hb]. by exists [], b.
    + intros (a & b & H). destruct a; simpl in H; [by exists b | done].
  - rewrite orb_true_iff, startswith_spec, IH. split.
    + intros [[b Hb] | (a & b & ->)].
      * by exists [], b.
      * by exists (c :: a), b.
    + intros (a & b & H). destruct a as [|x a]; simpl in H.
      * left. by exists b.
      * right. injection H as -> ->. by exists a, b.
Qed.

(** ** The disambiguator *)

(** A row adds its own outcome to whatever the loop carried so far: one
    entry of [chosen] and at most one counter step. *)
Lemma resolve_row_frame code_hits (c : cell) (token : str) (st : Tally) :
  let o := resolve_row code_hits c token tally0 in
  resolve_row code_hits c token st =
    mkTally (chosen st ++ chosen o)
            (unresolved st + unresolved o) (ambiguous st + ambiguous o)
  ∧ length (chosen o) = 1%nat.
Proof.
  unfold resolve_row; cbn zeta.
  destruct (default [] (code_hits !! strip (py_str c))) as [|h0 hs].
  - split; [cbn; f_equal; lia | done].
  - destruct (_ || _); [split; [cbn; f_equal; lia | done] |].
    destruct (with_ext _ _) as [|w [|? ?]];
      (split; [cbn; f_equal; lia | done]).
Qed.

Lemma resolve_rows_outs code_hits (ext_tokens : list str) (cells : list cell) :
  ∀ (i : nat) (st t : Tally),
    resolve_rows code_hits ext_tokens i cells st = Some t →
    ∃ outs : list str,
      chosen t = chosen st ++ outs ∧ length outs = length cells ∧
      ∀ (k : nat) (c : cell), cells !! k = Some c →
        ∃ token, ext_tokens !! (i + k)%nat = Some token ∧
          outs !! k = chosen (resolve_row code_hits c token tally0) !! 0%nat.
Proof.
  induction cells as [|c0 cells IH]; intros i st t H; simpl in H.
  - injection H as <-. exists []. rewrite app_nil_r. by split_and!.
  - destruct (ext_tokens !! i) as [tok|] eqn:Htok; [|done].
    destruct (IH _ _ _ H) as (outs & Hch & Hlen & Hk).
    destruct (resolve_row_frame code_hits c0 tok st) as [Hfr Hone].
    rewrite Hfr in Hch; simpl in Hch.
    remember (chosen (resolve_row code_hits c0 tok tally0)) as o eqn:Ho.
    exists (o ++ outs). split_and!.
    + by rewrite Hch, <- app_assoc.
    + rewrite length_app, Hone, Hlen. done.
    + intros [|k] c Hc; simpl in Hc.
      * injection Hc as <-. exists tok. rewrite Nat.add_0_r. split; [done |].
        rewrite <- Ho. apply lookup_app_l. lia.
      * destruct (Hk k c Hc) as (token & Ht & Hout). exists token. split.
        -- by replace (i + S k)%nat with (S i + k)%nat by lia.
        -- rewrite lookup_app_r by lia. rewrite Hone. simpl.
           by rewrite Nat.sub_0_r.
Qed.

Lemma resolve_rows_lookup code_hits (ext_tokens : list str) (cells : list cell)
    (t : Tally) (k : nat) (c : cell) :
  resolve_rows code_hits ext_tokens 0 cells tally0 = Some t →
  cells !! k = Some c →
  ∃ token, ext_tokens !! k = Some token ∧
    chosen t !! k = chosen (resolve_row code_hits c token tally0) !! 0%nat.
Proof.
  intros H Hc.
  destruct (resolve_rows_outs _ _ _ _ _ _ H) as (outs & Hch & _ & Hk).
  simpl in Hch. rewrite Hch. by apply (Hk k c).
Qed.


(** A run started from [st] is the run started from nothing, added to
    [st]: identifiers are appended and counters summed. *)
Lemma resolve_rows_frame code_hits (ext_tokens : list str) (cells : list cell) :
  ∀ (i : nat) (st : Tally),
    resolve_rows code_hits ext_tokens i cells st =
    (λ t0, mkTally (chosen st ++ chosen t0)
                   (unresolved st + unresolved t0) (ambiguous st + ambiguous t0))
      <$> resolve_rows code_hits ext_tokens i cells tally0.
Proof.
  induction cells as [|c cells IH]; intros i st; simpl.
  - destruct st; simpl. rewrite app_nil_r. do 2 f_equal; lia.
  - destruct (ext_tokens !! i) as [tok|]; [|done].
    rewrite (IH (S i) (resolve_row code_hits c tok st)).
    rewrite (IH (S i) (resolve_row code_hits c tok tally0)).
    destruct (resolve_rows code_hits ext_tokens (S i) cells tally0) as [t0|];
      [|done].
    simpl. rewrite (proj1 (resolve_row_frame code_hits c tok st)); simpl.
    rewrite <- app_assoc. do 2 f_equal; lia.
Qed.

(** C1. For every code and token: with no hit for the code the row gets the
    empty identifier and the unresolved count grows by one; with exactly one
    hit the row gets that hit's identifier whatever the token, the empty
    token included; with the empty token and several hits the row gets the
    identifier of the first hit in arrival order. In the last two cases no
    counter moves. *)
Theorem resolve_zero_one_or_no_token (code_hits : gmap str (list Hit))
    (c : cell) (token : str) (st : Tally) :
  let hits := default [] (code_hits !! strip (py_str c)) in
  (hits = [] →
     resolve_row code_hits c token st
     = mkTally (chosen st ++ [[]]) (S (unresolved st)) (ambiguous st))
  ∧ (∀ h, hits = [h] →
     resolve_row code_hits c token st
     = mkTally (chosen st ++ [qid h]) (unresolved st) (ambiguous st))
  ∧ (∀ h h' rest, token = [] → hits = h :: h' :: rest →
     resolve_row code_hits c token st
     = mkTally (chosen st ++ [qid h]) (unresolved st) (ambiguous st)).
Proof.
  intros hits. unfold resolve_row. fold hits. split_and!.
  - by intros ->.
  - by intros h ->.
  - intros h h' rest -> ->. by rewrite bool_decide_eq_true_2, orb_true_r.
Qed.

Lemma resolve_zero_one_or_no_token_witness :
  resolve_row ∅ (Some (lit " LT-200 ")) (lit "0a1b2c3d4e5f") tally0
  = mkTally [[]] 1 0
  ∧ resolve_row {[ lit "LT-100" := [mkHit (lit "Q10") (lit "linea")] ]}
      (Some (lit "LT-100")) (lit "0a1b2c3d4e5f") tally0
    = mkTally [lit "Q10"] 0 0
  ∧ resolve_row {[ lit "LT-100" := [mkHit (lit "Q10") (lit "linea")] ]}
      (Some (lit "LT-100")) [] tally0
    = mkTally [lit "Q10"] 0 0
  ∧ resolve_row
      {[ lit "LT-7" := [mkHit (lit "Q1") []; mkHit (lit "Q2") []; mkHit (lit "Q3") []] ]}
      (Some (lit "LT-7")) [] tally0
    = mkTally [lit "Q1"] 0 0.
Proof.
  split_and!.
  - refine (proj1 (resolve_zero_one_or_no_token ∅ (Some (lit " LT-200 "))
                     (lit "0a1b2c3d4e5f") tally0) _).
    reflexivity.
  - refine (proj1 (proj2 (resolve_zero_one_or_no_token
                     {[ lit "LT-100" := [mkHit (lit "Q10") (lit "linea")] ]}
                     (Some (lit "LT-100")) (lit "0a1b2c3d4e5f") tally0))
              (mkHit (lit "Q10") (lit "linea")) _).
    vm_compute. reflexivity.
  - refine (proj1 (proj2 (resolve_zero_one_or_no_token
                     {[ lit "LT-100" := [mkHit (lit "Q10") (lit "linea")] ]}
                     (Some (lit "LT-100")) [] tally0))
              (mkHit (lit "Q10") (lit "linea")) _).
    vm_compute. reflexivity.
  - refine (proj2 (proj2 (resolve_zero_one_or_no_token
                     {[ lit "LT-7" := [mkHit (lit "Q1") []; mkHit (lit "Q2") [];
                                       mkHit (lit "Q3") []] ]}
                     (Some (lit "LT-7")) [] tally0))
              (mkHit (lit "Q1") []) (mkHit (lit "Q2") []) [mkHit (lit "Q3") []]
              eq_refl _).
    vm_compute. reflexivity.
Defined.

(** C2. For every code with several hits and every non-empty token, the
    hits kept are exactly those whose description contains the tag
    [[EXT:token]] as a literal substring, in arrival order; when exactly one
    is kept the row gets its identifier and no counter moves; when none or
    two or more are kept the row gets the empty identifier and the ambiguous
    count grows by one. *)
Theorem resolve_by_tag (code_hits : gmap str (list Hit))
    (c : cell) (token : str) (st : Tally) (h h' : Hit) (rest : list Hit) :
  token ≠ [] →
  default [] (code_hits !! strip (py_str c)) = h :: h' :: rest →
  let hits := h :: h' :: rest in
  let tag := lit "[EXT:" ++ token ++ lit "]" in
  let kept := with_ext tag hits in
  (∀ x, x ∈ kept ↔ x ∈ hits ∧ ∃ a b, desc x = a ++ tag ++ b)
  ∧ kept `sublist_of` hits
  ∧ (∀ w, kept = [w] →
       resolve_row code_hits c token st
       = mkTally (chosen st ++ [qid w]) (unresolved st) (ambiguous st))
  ∧ (length kept ≠ 1%nat →
       resolve_row code_hits c token st
       = mkTally (chosen st ++ [[]]) (unresolved st) (S (ambiguous st))).
Proof.
  intros Htok Hhits hits tag kept.
  assert (Hrow : resolve_row code_hits c token st =
                 match kept with
                 | [w] => mkTally (chosen st ++ [qid w]) (unresolved st) (ambiguous st)
                 | _ => mkTally (chosen st ++ [[]]) (unresolved st) (S (ambiguous st))
                 end).
  { unfold resolve_row. rewrite Hhits.
    rewrite bool_decide_eq_false_2 by done. reflexivity. }
  split_and!.
  - intros x. unfold kept, with_ext.
    rewrite list_elem_of_In, filter_In, <- list_elem_of_In, str_in_spec. done.
  - unfold kept, with_ext. generalize hits. intros l.
    induction l as [|y l IH]; simpl; [constructor |].
    destruct (str_in tag (desc y)); by constructor.
  - intros w Hw. by rewrite Hrow, Hw.
  - intros Hlen. rewrite Hrow. by destruct kept as [|? [|? ?]].
Qed.

Lemma resolve_by_tag_witness :
  let q1 := mkHit (lit "Q1") (lit "linea de 220 kV [EXT:abc123] norte") in
  let q2 := mkHit (lit "Q2") (lit "no tag") in
  let q3 := mkHit (lit "Q3") (lit "[EXT:abc123]") in
  resolve_row {[ lit "LT-1" := [q1; q2] ]} (Some (lit "LT-1")) (lit "abc123") tally0
  = mkTally [lit "Q1"] 0 0
  ∧ resolve_row {[ lit "LT-1" := [q1; q2] ]} (Some (lit "LT-1")) (lit "zzz999") tally0
    = mkTally [[]] 0 1
  ∧ resolve_row {[ lit "LT-1" := [q1; q3] ]} (Some (lit "LT-1")) (lit "abc123") tally0
    = mkTally [[]] 0 1.
Proof.
  intros q1 q2 q3. split_and!.
  - refine (proj1 (proj2 (proj2
      (resolve_by_tag {[ lit "LT-1" := [q1; q2] ]} (Some (lit "LT-1"))
         (lit "abc123") tally0 q1 q2 [] _ _))) q1 _).
    + discriminate.
    + vm_compute. reflexivity.
    + vm_compute. reflexivity.
  - refine (proj2 (proj2 (proj2
      (resolve_by_tag {[ lit "LT-1" := [q1; q2] ]} (Some (lit "LT-1"))
         (lit "zzz999") tally0 q1 q2 [] _ _))) _).
    + discriminate.
    + vm_compute. reflexivity.
    + vm_compute. discriminate.
  - refine (proj2 (proj2 (proj2
      (resolve_by_tag {[ lit "LT-1" := [q1; q3] ]} (Some (lit "LT-1"))
         (lit "abc123") tally0 q1 q3 [] _ _))) _).
    + discriminate.
    + vm_compute. reflexivity.
    + vm_compute. discriminate.
Defined.

(** C8. The outcome of a row depends only on the hit list of its code and
    on its token: for two rows, of one run or of two, at any positions,
    whose codes have equal hit lists and whose tokens are equal, the
    identifiers written by the runs are equal and so are the counter steps,
    whatever the other rows, their order and the hits of other codes. *)
Theorem outcome_depends_on_hits_and_token_only
    (code_hits1 code_hits2 : gmap str (list Hit))
    (ext_tokens1 ext_tokens2 : list str) (cells1 cells2 : list cell)
    (t1 t2 : Tally) (i j : nat) (c1 c2 : cell) (token : str) :
  resolve_rows code_hits1 ext_tokens1 0 cells1 tally0 = Some t1 →
  resolve_rows code_hits2 ext_tokens2 0 cells2 tally0 = Some t2 →
  cells1 !! i = Some c1 → cells2 !! j = Some c2 →
  ext_tokens1 !! i = Some token → ext_tokens2 !! j = Some token →
  default [] (code_hits1 !! strip (py_str c1))
  = default [] (code_hits2 !! strip (py_str c2)) →
  resolve_row code_hits1 c1 token tally0 = resolve_row code_hits2 c2 token tally0
  ∧ chosen t1 !! i = chosen (resolve_row code_hits1 c1 token tally0) !! 0%nat
  ∧ chosen t2 !! j = chosen (resolve_row code_hits2 c2 token tally0) !! 0%nat
  ∧ chosen t1 !! i = chosen t2 !! j
  ∧ is_Some (chosen t1 !! i).
Proof.
  intros H1 H2 Hc1 Hc2 Ht1 Ht2 Hhits.
  assert (Hrow : resolve_row code_hits1 c1 token tally0
                 = resolve_row code_hits2 c2 token tally0).
  { unfold resolve_row. by rewrite Hhits. }
  destruct (resolve_rows_lookup _ _ _ _ _ _ H1 Hc1) as (tok1 & Hk1 & Hch1).
  destruct (resolve_rows_lookup _ _ _ _ _ _ H2 Hc2) as (tok2 & Hk2 & Hch2).
  rewrite Ht1 in Hk1. injection Hk1 as <-.
  rewrite Ht2 in Hk2. injection Hk2 as <-.
  split_and!; [done | done | done | by rewrite Hch1, Hch2, Hrow |].
  rewrite Hch1. apply lookup_lt_is_Some.
  rewrite (proj2 (resolve_row_frame code_hits1 c1 token tally0)). lia.
Qed.

Lemma outcome_depends_on_hits_and_token_only_witness :
  let q1 := mkHit (lit "Q1") (lit "tramo [EXT:abc123]") in
  let q2 := mkHit (lit "Q2") (lit "otro") in
  let hits1 : gmap str (list Hit) :=
    {[ lit "LT-1" := [q1; q2] ]} in
  let hits2 : gmap str (list Hit) :=
    {[ lit "LT-9" := [q1; q2]; lit "LT-5" := [mkHit (lit "Q5") []] ]} in
  chosen (mkTally [lit "Q1"; []] 1 0) !! 0%nat
  = chosen (mkTally [[]; lit "Q5"; lit "Q1"] 1 0) !! 2%nat.
Proof.
  intros q1 q2 hits1 hits2.
  refine (proj1 (proj2 (proj2 (proj2
    (outcome_depends_on_hits_and_token_only hits1 hits2
       [lit "abc123"; []] [[]; []; lit "abc123"]
       [Some (lit "LT-1"); Some (lit "LT-2")]
       [None; Some (lit "LT-5"); Some (lit " LT-9 ")]
       (mkTally [lit "Q1"; []] 1 0) (mkTally [[]; lit "Q5"; lit "Q1"] 1 0)
       0 2 (Some (lit "LT-1")) (Some (lit " LT-9 ")) (lit "abc123")
       _ _ _ _ _ _ _))))); vm_compute; reflexivity.
Defined.

(** ** The token generator *)

(** FIPS 180-4 test vectors, one and two blocks, and the empty message. *)
Example sha1_abc :
  SHA1.hexdigest (SHA1.sha1 (utf8_ignore (lit "abc")))
  = lit "a9993e364706816aba3e25717850c26c9cd0d89d".
Proof. vm_compute. reflexivity. Qed.

Example sha1_empty :
  SHA1.hexdigest (SHA1.sha1 []) = lit "da39a3ee5e6b4b0d3255bfef95601890afd80709".
Proof. vm_compute. reflexivity. Qed.

Example sha1_two_blocks :
  SHA1.hexdigest (SHA1.sha1 (utf8_ignore
    (lit "abcdbcdecdefdefgefghfghighijhijkijkljklmklmnlmnomnopnopq")))
  = lit "84983e441c3bd26ebaae4aa1f95129e5e54670f1".
Proof. vm_compute. reflexivity. Qed.

Example sha1_token_feat1 :
  sha1_token (lit "feat-1") (lit "geomdata") = lit "45e708844447".
Proof. vm_compute. reflexivity. Qed.

Example sha1_55_bytes :
  SHA1.hexdigest (SHA1.sha1 (replicate 55 97))
  = lit "c1c8bbdc22796e28c0e15163d20899b65621d65a".
Proof. vm_compute. reflexivity. Qed.

Example sha1_64_bytes :
  SHA1.hexdigest (SHA1.sha1 (replicate 64 97))
  = lit "0098ba824b5c16427bd7a1122a5a442a25ec644d".
Proof. vm_compute. reflexivity. Qed.

Example sha1_119_bytes :
  SHA1.hexdigest (SHA1.sha1 (replicate 119 97))
  = lit "ee971065aaa017e0632a8ca6c77bb3bf8b1dfc56".
Proof. vm_compute. reflexivity. Qed.

(** Characters of two, three and four bytes, and a lone surrogate. *)
Example sha1_token_unicode :
  sha1_token [0x6c; 0xed; 0x6e; 0x65; 0x61; 0x2d; 0x20ac] [0x1F600; 0xD800; 0x7a]
  = lit "26f9ecbd519e".
Proof. vm_compute. reflexivity. Qed.

Lemma length_hex (k : nat) (x : N) : length (SHA1.hex k x) = k.
Proof.
  revert x. induction k as [|k IH]; intros x; simpl; [done |].
  rewrite length_app, IH. simpl. lia.
Qed.

Lemma length_hexdigest (s : SHA1.state) : length (SHA1.hexdigest s) = 40%nat.
Proof. unfold SHA1.hexdigest. by rewrite !length_app, !length_hex. Qed.

(** A lower-case hexadecimal character: [0-9a-f]. *)
Lemma hex_digit_range (n : N) :
  n < 16 →
  (48 ≤ SHA1.hex_digit n ≤ 57) ∨ (97 ≤ SHA1.hex_digit n ≤ 102).
Proof.
  intros Hn. unfold SHA1.hex_digit.
  destruct (N.ltb_spec n 10); lia.
Qed.

Lemma hex_chars (k : nat) (x : N) :
  Forall (λ c, (48 ≤ c ≤ 57) ∨ (97 ≤ c ≤ 102)) (SHA1.hex k x).
Proof.
  revert x. induction k as [|k IH]; intros x; simpl; [constructor |].
  apply Forall_app. split; [apply IH |].
  constructor; [|constructor].
  apply hex_digit_range. apply N.mod_lt. done.
Qed.

Lemma hexdigest_chars (s : SHA1.state) :
  Forall (λ c, (48 ≤ c ≤ 57) ∨ (97 ≤ c ≤ 102)) (SHA1.hexdigest s).
Proof. unfold SHA1.hexdigest. rewrite !Forall_app. auto using hex_chars. Qed.

(** A lone surrogate is left out of the encoding; nothing else is. *)
Lemma utf8_char_nil (c : N) :
  utf8_char c = [] ↔ 0xD800 ≤ c ≤ 0xDFFF.
Proof.
  unfold utf8_char.
  destruct (N.ltb_spec c 0x80); [split; [done | lia] |].
  destruct (N.ltb_spec c 0x800); [split; [done | lia] |].
  destruct (N.ltb_spec c 0x10000); [|split; [done | lia]].
  destruct (N.leb_spec 0xD800 c), (N.leb_spec c 0xDFFF); simpl;
    split; (done || lia).
Qed.

Lemma utf8_ignore_app (a b : str) :
  utf8_ignore (a ++ b) = utf8_ignore a ++ utf8_ignore b.
Proof. unfold utf8_ignore. apply bind_app. Qed.

(** A token always has 12 characters. *)
Lemma length_sha1_token (fid coords_json : str) :
  length (sha1_token fid coords_json) = 12%nat.
Proof. unfold sha1_token. rewrite length_take, length_hexdigest. lia. Qed.

(** C3. The token is the first 12 characters of the hexadecimal SHA-1
    digest of the UTF-8 bytes of the identity, a bar, and the first 256
    characters of the descriptor; characters that cannot be encoded vanish
    from the bytes; the two scripts compute the same token; it is a function
    of its inputs, and the tokens of ("feat-1", "geomdataX") and
    ("feat-1", "geomdata") differ. *)
Theorem token_is_truncated_digest (fid coords_json : str) :
  sha1_token fid coords_json
  = take 12 (SHA1.hexdigest (SHA1.sha1
      (utf8_ignore fid ++ [124] ++ utf8_ignore (take 256 coords_json))))
  ∧ ext_token fid coords_json = sha1_token fid coords_json
  ∧ length (sha1_token fid coords_json) = 12%nat
  ∧ Forall (λ c, (48 ≤ c ≤ 57) ∨ (97 ≤ c ≤ 102)) (sha1_token fid coords_json)
  ∧ (∀ cj', take 256 cj' = take 256 coords_json →
       sha1_token fid cj' = sha1_token fid coords_json)
  ∧ (∀ a b c, 0xD800 ≤ c ≤ 0xDFFF → fid = a ++ [c] ++ b →
       sha1_token fid coords_json = sha1_token (a ++ b) coords_json)
  ∧ (∀ fid' cj', fid' = fid → cj' = coords_json →
       sha1_token fid' cj' = sha1_token fid coords_json)
  ∧ sha1_token (lit "feat-1") (lit "geomdataX")
    ≠ sha1_token (lit "feat-1") (lit "geomdata").
Proof.
  split_and!.
  - unfold sha1_token. by rewrite !utf8_ignore_app.
  - reflexivity.
  - apply length_sha1_token.
  - unfold sha1_token. apply Forall_take, hexdigest_chars.
  - intros cj' Hcj. unfold sha1_token. by rewrite Hcj.
  - intros a b c Hc ->. unfold sha1_token.
    rewrite !utf8_ignore_app.
    replace (utf8_ignore [c]) with (@nil N); [done |].
    unfold utf8_ignore; simpl. rewrite app_nil_r.
    symmetry. by apply utf8_char_nil.
  - by intros ? ? -> ->.
  - vm_compute. discriminate.
Qed.

Lemma token_is_truncated_digest_witness :
  sha1_token (lit "f") (replicate 300 97) = sha1_token (lit "f") (replicate 256 97)
  ∧ sha1_token [0x66; 0xDC00; 0x31] (lit "g") = sha1_token (lit "f1") (lit "g").
Proof.
  split_and!.
  - apply (proj1 (proj2 (proj2 (proj2 (proj2
      (token_is_truncated_digest (lit "f") (replicate 256 97))))))).
    vm_compute. reflexivity.
  - apply (proj1 (proj2 (proj2 (proj2 (proj2 (proj2
      (token_is_truncated_digest [0x66; 0xDC00; 0x31] (lit "g"))))))) [0x66] [0x31] 0xDC00).
    + lia.
    + reflexivity.
Defined.

(** ** Tables and the tokens of the rows *)

Lemma get_column_None (df : DataFrame) (name : str) :
  get_column df name = None ↔ has_column df name = false.
Proof.
  unfold get_column, has_column, labels.
  rewrite fmap_None, list_find_None, bool_decide_eq_false, Forall_forall.
  rewrite list_elem_of_fmap. split.
  - intros H [[n col] [-> Hin]]. by apply (H _ Hin).
  - intros H [n col] Hin Hn. apply H. by exists (n, col).
Qed.

Lemma get_column_Some (df : DataFrame) (name : str) (col : list cell) :
  get_column df name = Some col → (name, col) ∈ columns df.
Proof.
  unfold get_column. intros H.
  apply fmap_Some in H as ([i [n c]] & Hf & ->).
  apply list_find_Some in Hf as (Hl & Hn & _). simpl in *. subst n.
  by apply list_elem_of_lookup_2 in Hl.
Qed.

Lemma get_column_length (df : DataFrame) (name : str) (col : list cell) :
  wf_df df → get_column df name = Some col → length col = nrows df.
Proof.
  intros Hwf H. apply get_column_Some in H.
  unfold wf_df in Hwf. rewrite Forall_forall in Hwf.
  apply (Hwf _ H).
Qed.

(** [main] has one token per row. *)
Lemma length_ext_tokens_of (df : DataFrame) :
  wf_df df → length (ext_tokens_of df) = nrows df.
Proof.
  intros Hwf. unfold ext_tokens_of.
  destruct (get_column df (lit "_feature_id")) as [fids|] eqn:Hf;
    [|by rewrite length_replicate].
  destruct (get_column df (lit "_coords_json")) as [cjs|] eqn:Hc;
    [|by rewrite length_replicate].
  rewrite length_zip_with.
  rewrite (get_column_length _ _ _ Hwf Hf), (get_column_length _ _ _ Hwf Hc). lia.
Qed.

(** Against C4 as stated: a row whose feature identity is missing, in a
    table with distinct labels that has both context columns, still gets a
    token of 12 characters. *)
Lemma missing_feature_identity_gets_token :
  let df := mkDF 1 [(lit "Codigo", [Some (lit "LT-1")]);
                    (lit "_feature_id", [None]);
                    (lit "_coords_json", [Some (lit "x")])] in
  wf_df df
  ∧ NoDup (labels df)
  ∧ row_value df (lit "_feature_id") 0 = None
  ∧ ext_tokens_of df !! 0%nat = Some (lit "5a56232b1804")
  ∧ ext_tokens_of df !! 0%nat ≠ Some [].
Proof.
  intros df. split_and!.
  - repeat constructor.
  - apply (bool_decide_unpack _). by vm_compute.
  - vm_compute. reflexivity.
  - vm_compute. reflexivity.
  - vm_compute. discriminate.
Qed.

(** C4, amended. For a table whose labels, once trimmed, are distinct (so
    that [df[name]] is one column), the test is on the columns, not on the
    cells: when the table lacks the [_feature_id] or the [_coords_json]
    column every row has the empty token; when it has both, every row has
    the token of its two cells, a missing cell counting as the empty string,
    and that token has 12 characters. So a non-empty token appears only when
    both columns are there. *)
Theorem tokens_follow_columns (df : DataFrame) :
  wf_df df → NoDup (labels df) →
  length (ext_tokens_of df) = nrows df
  ∧ (has_column df (lit "_feature_id") = false
     ∨ has_column df (lit "_coords_json") = false →
     ext_tokens_of df = replicate (nrows df) [])
  ∧ (has_column df (lit "_feature_id") = true →
     has_column df (lit "_coords_json") = true →
     ∀ (i : nat) (token : str), ext_tokens_of df !! i = Some token →
       token = sha1_token (default [] (row_value df (lit "_feature_id") i))
                          (default [] (row_value df (lit "_coords_json") i))
       ∧ length token = 12%nat)
  ∧ (∀ (i : nat) (token : str), ext_tokens_of df !! i = Some token →
       token ≠ [] →
       has_column df (lit "_feature_id") = true
       ∧ has_column df (lit "_coords_json") = true).
Proof.
  intros Hwf _.
  assert (Hboth : ∀ fids cjs,
            get_column df (lit "_feature_id") = Some fids →
            get_column df (lit "_coords_json") = Some cjs →
            ∀ (i : nat) (token : str), ext_tokens_of df !! i = Some token →
              token = sha1_token (default [] (row_value df (lit "_feature_id") i))
                                 (default [] (row_value df (lit "_coords_json") i))
              ∧ length token = 12%nat).
  { intros fids cjs Hf Hc i token. unfold ext_tokens_of, row_value.
    rewrite Hf, Hc. intros Hi.
    apply lookup_zip_with_Some in Hi as (fid & cj & -> & Hfi & Hci).
    rewrite Hfi, Hci. simpl. split; [done |].
    exact (length_sha1_token (fillna fid) (fillna cj)). }
  split_and!.
  - by apply length_ext_tokens_of.
  - intros [H | H]; apply get_column_None in H; unfold ext_tokens_of; rewrite H;
      [done | by destruct (get_column df (lit "_feature_id"))].
  - intros Hf Hc.
    destruct (get_column df (lit "_feature_id")) as [fids|] eqn:Ef;
      [|apply get_column_None in Ef; congruence].
    destruct (get_column df (lit "_coords_json")) as [cjs|] eqn:Ec;
      [|apply get_column_None in Ec; congruence].
    by apply (Hboth fids cjs).
  - intros i token Hi Hne.
    destruct (has_column df (lit "_feature_id")) eqn:Ef,
             (has_column df (lit "_coords_json")) eqn:Ec; try done.
    all: exfalso; apply Hne.
    all: assert (Hg : get_column df (lit "_feature_id") = None
                      ∨ get_column df (lit "_coords_json") = None)
           by (rewrite !get_column_None; tauto).
    all: unfold ext_tokens_of in Hi.
    all: destruct Hg as [Hg | Hg]; rewrite Hg in Hi.
    all: try destruct (get_column df (lit "_feature_id")).
    all: apply lookup_replicate in Hi as [-> _]; done.
Qed.

Lemma tokens_follow_columns_witness :
  let with_context := mkDF 2 [(lit "Codigo", [Some (lit "LT-1"); Some (lit "LT-2")]);
                              (lit "_feature_id", [Some (lit "feat-1"); None]);
                              (lit "_coords_json", [Some (lit "geomdata"); Some (lit "x")])] in
  let without := mkDF 2 [(lit "Codigo", [Some (lit "LT-1"); Some (lit "LT-2")]);
                         (lit "_feature_id", [Some (lit "feat-1"); None])] in
  ext_tokens_of without = [[]; []]
  ∧ (lit "45e708844447"
     = sha1_token (default [] (row_value with_context (lit "_feature_id") 0))
                  (default [] (row_value with_context (lit "_coords_json") 0))
     ∧ length (lit "45e708844447") = 12%nat)
  ∧ (has_column with_context (lit "_feature_id") = true
     ∧ has_column with_context (lit "_coords_json") = true).
Proof.
  intros with_context without.
  assert (Hwf1 : wf_df with_context) by (repeat constructor).
  assert (Hwf2 : wf_df without) by (repeat constructor).
  assert (Hnd1 : NoDup (labels with_context))
    by (apply (bool_decide_unpack _); by vm_compute).
  assert (Hnd2 : NoDup (labels without))
    by (apply (bool_decide_unpack _); by vm_compute).
  split; [|split].
  - apply (proj1 (proj2 (tokens_follow_columns without Hwf2 Hnd2))).
    right. vm_compute. reflexivity.
  - apply (proj1 (proj2 (proj2 (tokens_follow_columns with_context Hwf1 Hnd1)))).
    + vm_compute. reflexivity.
    + vm_compute. reflexivity.
    + vm_compute. reflexivity.
  - apply (proj2 (proj2 (proj2 (tokens_follow_columns with_context Hwf1 Hnd1)))
             0%nat (lit "45e708844447")).
    + vm_compute. reflexivity.
    + discriminate.
Defined.

(** ** Codes and batches *)

Lemma str_leb_refl (a : str) : str_leb a a = true.
Proof. induction a as [|x a IH]; simpl; [done |]. by rewrite N.ltb_irrefl. Qed.

#[global] Instance str_le_total : Total str_le.
Proof.
  intros a. unfold str_le. induction a as [|x a IH]; intros [|y b]; simpl; auto.
  destruct (N.ltb_spec x y), (N.ltb_spec y x); auto; lia.
Qed.

#[global] Instance str_le_trans : Transitive str_le.
Proof.
  unfold str_le. intros a.
  induction a as [|x a IH]; intros [|y b] [|z c]; simpl; try done.
  destruct (N.ltb_spec x y), (N.ltb_spec y x), (N.ltb_spec y z),
    (N.ltb_spec z y), (N.ltb_spec x z), (N.ltb_spec z x);
    try done; try lia.
  apply IH.
Qed.

#[global] Instance str_le_antisymm : AntiSymm (=) str_le.
Proof.
  unfold str_le. intros a.
  induction a as [|x a IH]; intros [|y b]; simpl; try done.
  destruct (N.ltb_spec x y), (N.ltb_spec y x); try done; try lia.
  intros H1 H2. f_equal; [lia | by apply IH].
Qed.

(** [str_le] is the lexicographic order: a string comes before its
    extensions, and otherwise the first differing characters decide. *)
Lemma str_le_lex (a b : str) :
  str_le a b ↔
  (∃ t, b = a ++ t)
  ∨ (∃ p x y ta tb, a = p ++ x :: ta ∧ b = p ++ y :: tb ∧ x < y).
Proof.
  unfold str_le. revert b. induction a as [|x a IH]; intros [|y b]; simpl.
  - split; [intros _; left; by exists [] | done].
  - split; [intros _; left; by exists (y :: b) | done].
  - split; [done |].
    intros [[t Ht] | (p & x' & y' & ta & tb & _ & Hb & _)]; [done |].
    by destruct p.
  - destruct (N.ltb_spec x y) as [Hxy | Hxy].
    { split; [intros _ | done]. right. by exists [], x, y, a, b. }
    destruct (N.ltb_spec y x) as [Hyx | Hyx].
    { split; [done |].
      intros [[t Ht] | (p & x' & y' & ta & tb & Ha & Hb & Hlt)].
      - injection Ht as -> _. lia.
      - destruct p as [|z p]; simpl in *.
        + injection Ha as -> _. injection Hb as -> _. lia.
        + injection Ha as -> _. injection Hb as -> _. lia. }
    assert (x = y) as -> by lia. rewrite IH. split.
    + intros [[t ->] | (p & x' & y' & ta & tb & -> & -> & Hlt)].
      * left. by exists t.
      * right. by exists (y :: p), x', y', ta, tb.
    + intros [[t Ht] | (p & x' & y' & ta & tb & Ha & Hb & Hlt)].
      * injection Ht as ->. left. by exists t.
      * destruct p as [|z p]; simpl in *.
        -- injection Ha as -> _. injection Hb as -> _. lia.
        -- injection Ha as -> ->. injection Hb as ->.
           right. by exists p, x', y', ta, tb.
Qed.

(** [sorted] gives the one sorted arrangement of its argument, so any
    correct sorting procedure computes it. *)
Lemma sorted_unique (l l' : list str) :
  l' ≡ₚ l → Sorted str_le l' → l' = sorted l.
Proof.
  intros Hp Hs. apply (Sorted_unique str_le); [done | apply Sorted_merge_sort; apply _ |].
  unfold sorted. by rewrite merge_sort_Permutation.
Qed.

Lemma codes_of_spec (col : list cell) :
  (∀ c, c ∈ codes_of col ↔ c ≠ [] ∧ ∃ x, x ∈ col ∧ c = strip (fillna x))
  ∧ NoDup (codes_of col)
  ∧ StronglySorted str_le (codes_of col).
Proof.
  unfold codes_of, sorted. split_and!.
  - intros c. rewrite merge_sort_Permutation, elem_of_elements, elem_of_list_to_set.
    rewrite list_elem_of_In, filter_In, <- list_elem_of_In, list_elem_of_fmap.
    rewrite negb_true_iff, bool_decide_eq_false. split.
    + intros [(x & -> & Hx) Hne]. split; [done | by exists x].
    + intros [Hne (x & Hx & ->)]. split; [by exists x | done].
  - rewrite merge_sort_Permutation. apply NoDup_elements.
  - apply StronglySorted_merge_sort; apply _.
Qed.

Section batching.
Local Open Scope nat_scope.

(** Slices with bounds in order and not negative need no clamping. *)
Lemma slice_take_drop {A} (l : list A) (i j : Z) :
  (0 ≤ i ≤ j)%Z →
  slice l i j = take (Z.to_nat (j - i)) (drop (Z.to_nat i) l).
Proof.
  intros Hij. unfold slice. cbv beta zeta.
  destruct (Z.ltb_spec i 0) as [? | _]; [lia |].
  destruct (Z.ltb_spec j 0) as [? | _]; [lia |].
  destruct (decide (Z.of_nat (length l) ≤ i)%Z) as [Hge | Hlt].
  - rewrite !drop_ge by lia. by rewrite !take_nil.
  - rewrite (Z.min_l i) by lia.
    destruct (decide (j ≤ Z.of_nat (length l))%Z) as [Hj | Hj].
    + by rewrite Z.min_l by lia.
    + rewrite Z.min_r by lia.
      rewrite !take_ge; [done | |]; rewrite length_drop; lia.
Qed.

(** The batches, counted in [nat]: [cnt] runs of [m] starting at the
    multiples of [m]. *)
Lemma batches_of_chunks (codes : list str) (batch_size : Z) :
  (0 < batch_size)%Z →
  let m := Z.to_nat batch_size in
  batches_of codes batch_size
  = Some ((λ k, take m (drop (k * m) codes))
            <$> seq 0 ((length codes + m - 1) / m)).
Proof.
  intros Hpos m. unfold batches_of, py_range.
  destruct (Z.eqb_spec batch_size 0) as [? | _]; [lia |].
  destruct (Z.ltb_spec batch_size 0) as [? | _]; [lia |].
  f_equal. rewrite <- list_fmap_compose.
  replace (Z.to_nat ((Z.of_nat (length codes) + batch_size - 1) / batch_size))
    with ((length codes + m - 1) / m).
  2:{ apply Nat2Z.inj. rewrite Nat2Z.inj_div.
      rewrite Z2Nat.id by (apply Z.div_pos; lia). subst m. f_equal; lia. }
  apply list_fmap_ext. intros _ k _. simpl.
  rewrite slice_take_drop by lia. subst m. f_equal; [f_equal; lia |].
  f_equal. rewrite Z2Nat.inj_mul by lia. by rewrite Nat2Z.id.
Qed.

Lemma chunks_cons {A} (l : list A) (m cnt : nat) :
  (λ k, take m (drop (k * m) l)) <$> seq 0 (S cnt)
  = take m l :: ((λ k, take m (drop (k * m) (drop m l))) <$> seq 0 cnt).
Proof.
  simpl. f_equal. rewrite <- fmap_S_seq, <- list_fmap_compose.
  apply list_fmap_ext. intros _ k _. simpl. by rewrite drop_drop.
Qed.

Lemma chunks_concat {A} (m cnt : nat) : ∀ l : list A,
  length l ≤ cnt * m →
  concat ((λ k, take m (drop (k * m) l)) <$> seq 0 cnt) = l.
Proof.
  induction cnt as [|cnt IH]; intros l Hlen.
  - destruct l; [done | simpl in Hlen; lia].
  - rewrite chunks_cons. simpl. rewrite IH; [apply take_drop |].
    rewrite length_drop. lia.
Qed.

Lemma chunks_lengths {A} (l : list A) (m cnt k : nat) (b : list A) :
  ((λ k, take m (drop (k * m) l)) <$> seq 0 cnt) !! k = Some b →
  k < cnt ∧ length b = min m (length l - k * m).
Proof.
  rewrite list_lookup_fmap. intros H.
  apply fmap_Some in H as (k' & Hk & ->).
  apply lookup_seq in Hk as [-> Hlt]. simpl.
  split; [done |]. by rewrite length_take, length_drop.
Qed.

(** In a list of lists whose concatenation has no duplicate, an element
    sits in one list only. *)
Lemma concat_NoDup_unique {A} (ls : list (list A)) (x : A)
    (k1 k2 : nat) (b1 b2 : list A) :
  NoDup (concat ls) →
  ls !! k1 = Some b1 → ls !! k2 = Some b2 → x ∈ b1 → x ∈ b2 → k1 = k2.
Proof.
  revert k1 k2. induction ls as [|b ls IH]; intros k1 k2 Hnd H1 H2 Hx1 Hx2;
    [done |].
  simpl in Hnd. apply NoDup_app in Hnd as (_ & Hdisj & Hnd).
  assert (Hin : ∀ k b', ls !! k = Some b' → x ∈ b' → x ∈ concat ls).
  { intros k b' Hk Hb'. apply list_elem_of_In, in_concat. exists b'.
    split; apply list_elem_of_In; [by eapply list_elem_of_lookup_2 | done]. }
  destruct k1 as [|k1], k2 as [|k2]; simpl in *.
  - done.
  - injection H1 as ->. by destruct (Hdisj x Hx1 (Hin _ _ H2 Hx2)).
  - injection H2 as ->. by destruct (Hdisj x Hx2 (Hin _ _ H1 Hx1)).
  - f_equal. by apply IH.
Qed.

End batching.

(** C7. The codes queried are the distinct non-empty trimmed codes of the
    column, sorted lexicographically; with a positive batch size they are
    cut into consecutive batches that put together give back the codes, all
    of the batch size except possibly the last, which is not empty; every
    code sits in exactly one batch; and 200 codes in batches of 75 give
    three batches of 75, 75 and 50. *)
Theorem codes_sorted_and_batched (col : list cell) (batch_size : Z) :
  (0 < batch_size)%Z →
  ∃ batches : list (list str),
    batches_of (codes_of col) batch_size = Some batches
    ∧ (∀ c, c ∈ codes_of col ↔ c ≠ [] ∧ ∃ x, x ∈ col ∧ c = strip (fillna x))
    ∧ NoDup (codes_of col)
    ∧ StronglySorted str_le (codes_of col)
    ∧ concat batches = codes_of col
    ∧ (∀ (k : nat) (b : list str), batches !! k = Some b →
         if decide (S k = length batches)
         then (0 < length b ≤ Z.to_nat batch_size)%nat
         else length b = Z.to_nat batch_size)
    ∧ (∀ c, c ∈ codes_of col →
         ∃ (k : nat) (b : list str), batches !! k = Some b ∧ c ∈ b
           ∧ ∀ (k' : nat) (b' : list str),
               batches !! k' = Some b' → c ∈ b' → k' = k)
    ∧ (length (codes_of col) = 200%nat → batch_size = 75%Z →
         length <$> batches = [75; 75; 50]%nat).
Proof.
  intros Hpos.
  destruct (codes_of_spec col) as (Hmem & Hnd & Hsorted).
  set (codes := codes_of col) in *.
  set (m := Z.to_nat batch_size).
  set (cnt := ((length codes + m - 1) / m)%nat).
  assert (Hm : (0 < m)%nat) by (subst m; lia).
  assert (Hdiv : (length codes + m - 1 = m * cnt + (length codes + m - 1) mod m)%nat)
    by (apply Nat.div_mod; lia).
  assert (Hmod : ((length codes + m - 1) mod m < m)%nat)
    by (apply Nat.mod_upper_bound; lia).
  exists ((λ k, take m (drop (k * m)%nat codes)) <$> seq 0 cnt).
  assert (Hcat : concat ((λ k, take m (drop (k * m)%nat codes)) <$> seq 0 cnt)
                 = codes).
  { apply chunks_concat. nia. }
  split_and!; try done.
  - by apply batches_of_chunks.
  - intros k b Hk. rewrite length_fmap, length_seq.
    apply chunks_lengths in Hk as [Hlt ->].
    destruct (decide (S k = cnt)) as [Heq | Hne]; nia.
  - intros c Hc. rewrite <- Hcat in Hc.
    apply list_elem_of_In, in_concat in Hc as (b & Hb & Hcb).
    apply list_elem_of_In, list_elem_of_lookup in Hb as [k Hk].
    apply list_elem_of_In in Hcb.
    exists k, b. split_and!; [done | done |].
    intros k' b' Hk' Hcb'.
    eapply (concat_NoDup_unique _ c k' k b' b); [by rewrite Hcat | done..].
  - intros Hlen Hbs. subst cnt m. rewrite Hlen, Hbs. simpl.
    rewrite !length_take, !length_drop, Hlen. reflexivity.
Qed.

Lemma codes_sorted_and_batched_witness :
  let col := [Some (lit " b "); None; Some (lit "a"); Some (lit "b");
              Some (lit "   "); Some (lit "c")] in
  ∃ batches : list (list str),
    batches_of (codes_of col) 2 = Some batches
    ∧ concat batches = codes_of col.
Proof.
  intros col.
  destruct (codes_sorted_and_batched col 2 ltac:(lia))
    as (batches & Hb & _ & _ & _ & Hcat & _).
  by exists batches.
Defined.

Example codes_of_example :
  codes_of [Some (lit " b "); None; Some (lit "a"); Some (lit "b");
            Some (lit "   "); Some (lit "c"); Some (lit "B")]
  = [lit "B"; lit "a"; lit "b"; lit "c"].
Proof. vm_compute. reflexivity. Qed.

Example batches_of_example :
  batches_of [lit "B"; lit "a"; lit "b"; lit "c"; lit "d"] 2
  = Some [[lit "B"; lit "a"]; [lit "b"; lit "c"]; [lit "d"]].
Proof. vm_compute. reflexivity. Qed.

(** A batch size that is not positive: zero is the ValueError of [range],
    and a negative one gives no batch at all. *)
Lemma batches_of_nonpositive (codes : list str) (batch_size : Z) :
  (batch_size = 0%Z → batches_of codes batch_size = None)
  ∧ ((batch_size < 0)%Z → batches_of codes batch_size = Some []).
Proof.
  unfold batches_of, py_range. split.
  - by intros ->.
  - intros H. destruct (Z.eqb_spec batch_size 0); [lia |].
    destruct (Z.ltb_spec batch_size 0); [done | lia].
Qed.

(** ** The retry client *)

Section client.
Context `{Arith F}.
Variable net : Z → posted.
Variable retries : Z.
Variable backoff : F.





(** The loop returns: it never needs more than [max(1, retries)] turns,
    counted from the attempts already made. *)
Lemma http_post_sparql_loop_returns (fuel : nat) :
  ∀ (attempt : Z) (trace : list (event F)),
    (0 < fuel)%nat → (retries - attempt ≤ Z.of_nat fuel)%Z →
    is_Some (http_post_sparql_loop net retries backoff fuel attempt trace).
Proof.
  induction fuel as [|fuel IH]; intros attempt trace Hpos Hfuel; [lia |].
  simpl. destruct (attempt_body (net (attempt + 1))) as [e | data];
    [|by eexists].
  destruct (Z.geb_spec (attempt + 1) retries) as [Hge | Hlt]; [by eexists |].
  apply IH; lia.
Qed.

Lemma http_post_sparql_returns :
  is_Some (http_post_sparql net retries backoff).
Proof. apply http_post_sparql_loop_returns; lia. Qed.

(** More fuel does not change what the loop returns. *)
Lemma http_post_sparql_loop_fuel (fuel fuel' : nat) :
  ∀ (attempt : Z) (trace : list (event F)) r,
    http_post_sparql_loop net retries backoff fuel attempt trace = Some r →
    (fuel ≤ fuel')%nat →
    http_post_sparql_loop net retries backoff fuel' attempt trace = Some r.
Proof.
  revert fuel'. induction fuel as [|fuel IH]; intros fuel' attempt trace r Hr Hle;
    [done |].
  destruct fuel' as [|fuel']; [lia |]. simpl in *.
  destruct (attempt_body (net (attempt + 1))) as [e | data]; [|done].
  destruct (attempt + 1 >=? retries)%Z; [done |].
  apply (IH fuel'); [done | lia].
Qed.


End client.



(** Every send returns, with a value or with an exception. *)
Lemma http_post_sparql_total `{Arith F} (net : Z → posted) (retries : Z)
    (backoff : F) :
  ∃ r, http_post_sparql net retries backoff = Some r.
Proof. apply http_post_sparql_returns. Qed.

(** C5, on the code. A response of status 200 whose body is not JSON raises
    inside the [try]; the blanket [except Exception] treats it as any other
    failure: with [retries = 3] the client posts three times and sleeps
    twice before the decoding error comes out. *)
Theorem malformed_body_is_retried `{Arith F} (backoff : F) :
  http_post_sparql (λ _, PostReturned (mkResponse 200 None)) 3 backoff
  = Some (inl JSONDecodeError,
          [Post 1; Sleep (sleep_s backoff 1); Post 2;
           Sleep (sleep_s backoff 2); Post 3]).
Proof. reflexivity. Qed.

(** A status outside the retryable set is retried in the same way. *)
Lemma not_found_is_retried `{Arith F} (backoff : F) :
  http_post_sparql (λ _, PostReturned (mkResponse 404 None)) 2 backoff
  = Some (inl (HTTPError 404), [Post 1; Sleep (sleep_s backoff 1); Post 2]).
Proof. reflexivity. Qed.

(** A success on the first attempt makes one request and no sleep. *)
Lemma first_success `{Arith F} (net : Z → posted) (retries : Z) (backoff : F)
    (data : list Binding) :
  attempt_body (net 1%Z) = inr data →
  http_post_sparql net retries backoff = Some (inr data, [Post 1]).
Proof.
  intros H1. unfold http_post_sparql.
  destruct (Z.to_nat (Z.max 1 retries)) as [|fuel] eqn:E; [lia |].
  unfold http_post_sparql_loop. change (0 + 1)%Z with 1%Z. by rewrite H1.
Qed.

(** ** The query builder *)

Lemma lstrip_head (s : str) (c : N) (r : str) :
  lstrip s = c :: r → isspace c = false.
Proof.
  induction s as [|x s IH]; simpl; [done |].
  destruct (isspace x) eqn:E; [done |]. by intros [= <- _].
Qed.

(** A trimmed string does not end with white space. *)
Lemma strip_last (s : str) (c : N) (r : str) :
  reverse (strip s) = c :: r → isspace c = false.
Proof.
  unfold strip, rstrip. rewrite reverse_involutive. apply lstrip_head.
Qed.

(** On a trimmed entry the regular expression is the pattern: its [$]
    cannot match before a last line feed, for there is none. *)
Lemma match_P_digits_strip (is_decimal : N → bool) (p : str) :
  match_P_digits is_decimal (strip p) = P_then_digits is_decimal (strip p).
Proof.
  unfold match_P_digits, P_then_digits.
  destruct (strip p) as [|c ds] eqn:E; [done |].
  destruct (reverse ds) as [|x r] eqn:Er; [done |].
  destruct (N.eqb_spec x 10) as [-> | _]; [|done].
  assert (Hx : isspace 10 = false); [|done].
  apply (strip_last p 10 (r ++ [c])). by rewrite E, reverse_cons, Er.
Qed.

Lemma P_then_digits_spec (is_decimal : N → bool) (p : str) :
  P_then_digits is_decimal p = true
  ↔ ∃ ds, p = 80 :: ds ∧ ds ≠ [] ∧ ∀ c, c ∈ ds → is_decimal c = true.
Proof.
  unfold P_then_digits. destruct p as [|c ds].
  - split; [done | by intros (? & ? & _)].
  - rewrite !andb_true_iff, N.eqb_eq, negb_true_iff, bool_decide_eq_false,
      forallb_forall.
    setoid_rewrite <- list_elem_of_In. split.
    + intros [[-> Hne] Hd]. by exists ds.
    + intros (ds' & [= -> ->] & Hne & Hd). done.
Qed.

(** Against C9 as stated: [Q42] is an ASCII letter followed by digits and
    gets no clause (the builder falls back to the default property), while
    the entry [ P528 ], which is not, gets one once trimmed. *)
Lemma letter_then_digits_is_not_the_test :
  letter_then_digits unicode_decimal (lit "Q42") = true
  ∧ unions_of unicode_decimal [lit "Q42"] = []
  ∧ union_block unicode_decimal [lit "Q42"] = lit "{ ?item wdt:P528 ?code . }"
  ∧ letter_then_digits unicode_decimal (lit " P528 ") = false
  ∧ unions_of unicode_decimal [lit " P528 "] = [lit "?item wdt:P528 ?code ."]
  ∧ unions_of unicode_decimal [lit "Q42"; lit " P528 "]
    ≠ clause <$> List.filter (letter_then_digits unicode_decimal)
                   [lit "Q42"; lit " P528 "].
Proof. split_and!; try (vm_compute; reflexivity). vm_compute. discriminate. Qed.

(** C9, amended. The builder writes a match clause for exactly the entries
    that, once trimmed of surrounding white space, are the letter P followed
    by one or more decimal digits, in their order, and drops the rest; when
    none is left the block is the clause of the default property P528;
    either way the query is built around that block. *)
Theorem clauses_for_P_digits_entries (is_decimal : N → bool)
    (props codes : list str) (lang_desc : str) :
  let kept := List.filter (P_then_digits is_decimal) (strip <$> props) in
  unions_of is_decimal props = clause <$> kept
  ∧ (∀ p, p ∈ kept ↔
       (∃ entry, entry ∈ props ∧ p = strip entry)
       ∧ ∃ ds, p = 80 :: ds ∧ ds ≠ [] ∧ ∀ c, c ∈ ds → is_decimal c = true)
  ∧ (kept = [] →
       union_block is_decimal props = lit "{ ?item wdt:P528 ?code . }")
  ∧ (kept ≠ [] →
       union_block is_decimal props
       = join (lit " UNION ") ((λ p, lit "{" ++ clause p ++ lit "}") <$> kept))
  ∧ ∃ before after,
      build_sparql_for_codes is_decimal props codes lang_desc
      = before ++ union_block is_decimal props ++ after.
Proof.
  intros kept.
  assert (Hu : unions_of is_decimal props = clause <$> kept).
  { unfold unions_of, kept, clause. f_equal.
    induction props as [|p props IH]; [done |].
    rewrite fmap_cons. cbn [List.filter].
    rewrite match_P_digits_strip.
    destruct (P_then_digits is_decimal (strip p)); by rewrite IH. }
  split_and!.
  - done.
  - intros p. unfold kept.
    rewrite list_elem_of_In, filter_In, <- list_elem_of_In, list_elem_of_fmap.
    rewrite P_then_digits_spec. split.
    + intros [(entry & -> & Hin) Hp]. split; [by exists entry | done].
    + intros [(entry & Hin & ->) Hp]. split; [by exists entry | done].
  - intros Hk. unfold union_block. by rewrite Hu, Hk.
  - intros Hk. unfold union_block. rewrite Hu.
    destruct kept as [|p0 kept']; [done |].
    rewrite (list_fmap_compose clause (λ u, lit "{" ++ u ++ lit "}")).
    reflexivity.
  - unfold build_sparql_for_codes.
    exists (nl ++ lit "SELECT ?item ?code ?desc WHERE {" ++ nl
              ++ lit "  VALUES ?code { " ++ build_values_list codes ++ lit " }"
              ++ nl ++ lit "  ").
    eexists. rewrite <- !app_assoc. reflexivity.
Qed.

Lemma clauses_for_P_digits_entries_witness :
  union_block unicode_decimal [lit "Q42"; lit "wdt:P1"; []]
  = lit "{ ?item wdt:P528 ?code . }"
  ∧ union_block unicode_decimal [lit " P528 "; lit "Q42"; lit "P712"]
    = lit "{?item wdt:P528 ?code .} UNION {?item wdt:P712 ?code .}".
Proof.
  split.
  - apply (proj1 (proj2 (proj2 (clauses_for_P_digits_entries unicode_decimal
             [lit "Q42"; lit "wdt:P1"; []] [] [])))).
    vm_compute. reflexivity.
  - rewrite (proj1 (proj2 (proj2 (proj2 (clauses_for_P_digits_entries
               unicode_decimal [lit " P528 "; lit "Q42"; lit "P712"] [] []))))).
    + vm_compute. reflexivity.
    + vm_compute. discriminate.
Defined.

(** ** The output table *)

Section output.
Local Open Scope nat_scope.
Local Abbreviation W := (lit "wikidata").
Local Abbreviation keep := (λ col : str * list cell, col.1 ≠ W).

Lemma filter_label_absent (cs : list (str * list cell)) (n : str) :
  n ∉ cs.*1 → List.filter (λ col, bool_decide (col.1 = n)) cs = [].
Proof.
  induction cs as [|[n' c'] cs IH]; intros Hn; [done |].
  rewrite fmap_cons, not_elem_of_cons in Hn. destruct Hn as [Hne Hn].
  simpl. rewrite bool_decide_eq_false_2 by done. by apply IH.
Qed.

(** With distinct labels, a label selects its one column. *)
Lemma filter_label_unique (cs : list (str * list cell)) (n : str) (c : list cell) :
  NoDup cs.*1 → (n, c) ∈ cs →
  List.filter (λ col, bool_decide (col.1 = n)) cs = [(n, c)].
Proof.
  induction cs as [|[n' c'] cs IH]; intros Hnd Hin; [by apply elem_of_nil in Hin |].
  rewrite fmap_cons in Hnd. apply NoDup_cons in Hnd as [Hn' Hnd].
  apply elem_of_cons in Hin as [[= <- <-] | Hin]; simpl.
  - rewrite bool_decide_eq_true_2 by done. f_equal. by apply filter_label_absent.
  - rewrite bool_decide_eq_false_2; [by apply IH |].
    intros ->. apply Hn'. apply list_elem_of_fmap. by exists (n, c).
Qed.

Lemma select_labels (cs l : list (str * list cell)) :
  NoDup cs.*1 → (∀ col, col ∈ l → col ∈ cs) →
  l.*1 ≫= (λ name, List.filter (λ col, bool_decide (col.1 = name)) cs) = l.
Proof.
  intros Hnd. induction l as [|[n c] l IH]; intros Hin; [done |].
  rewrite fmap_cons, bind_cons. simpl.
  rewrite (filter_label_unique cs n c Hnd) by (apply Hin; left).
  simpl. f_equal. apply IH. intros col Hcol. apply Hin. by right.
Qed.

(** With distinct labels, removing the label [wikidata] from the labels
    leaves the labels of the other columns. *)
Lemma py_remove_labels (cs : list (str * list cell)) :
  NoDup cs.*1 → W ∈ cs.*1 → py_remove W cs.*1 = (filter keep cs).*1.
Proof.
  induction cs as [|[n c] cs IH]; intros Hnd Hin; [by apply elem_of_nil in Hin |].
  rewrite fmap_cons in Hnd, Hin. apply NoDup_cons in Hnd as [Hn Hnd].
  simpl in *. destruct (decide (n = W)) as [-> | Hne].
  - rewrite bool_decide_eq_true_2 by done.
    rewrite filter_cons_False by (simpl; auto).
    f_equal. clear -Hn. induction cs as [|[n' c'] cs IH]; [done |].
    rewrite fmap_cons, not_elem_of_cons in Hn. destruct Hn as [Hne Hn].
    rewrite filter_cons_True by (simpl; auto). by rewrite <- IH.
  - rewrite bool_decide_eq_false_2 by done.
    rewrite filter_cons_True by done. rewrite fmap_cons. simpl. f_equal.
    apply IH; [done |]. apply elem_of_cons in Hin as [? | ?]; congruence.
Qed.

Lemma filter_keep_id (cs : list (str * list cell)) :
  W ∉ cs.*1 → filter keep cs = cs.
Proof.
  induction cs as [|[n c] cs IH]; intros Hn; [done |].
  rewrite fmap_cons, not_elem_of_cons in Hn. destruct Hn as [Hne Hn].
  rewrite filter_cons_True by (simpl; auto). by rewrite IH.
Qed.

Lemma py_remove_last (l : list str) (x : str) :
  x ∉ l → py_remove x (l ++ [x]) = l.
Proof.
  induction l as [|y l IH]; intros Hx; simpl.
  - by rewrite bool_decide_eq_true_2.
  - apply not_elem_of_cons in Hx as [Hne Hx].
    rewrite bool_decide_eq_false_2 by done. by rewrite IH.
Qed.

Lemma py_index_app (l1 l2 : list str) (x : str) :
  x ∉ l1 → py_index x (l1 ++ x :: l2) = Some (length l1).
Proof.
  unfold py_index. induction l1 as [|y l1 IH]; intros Hx; simpl.
  - by rewrite decide_True.
  - apply not_elem_of_cons in Hx as [Hne Hx].
    rewrite decide_False by done.
    specialize (IH Hx). destruct (list_find _ (l1 ++ x :: l2)) as [[i z]|];
      simpl in *; [|done].
    by injection IH as ->.
Qed.

Lemma py_insert_after (l1 l2 : list str) (x y : str) :
  py_insert (length l1 + 1) y (l1 ++ x :: l2) = l1 ++ x :: y :: l2.
Proof.
  unfold py_insert.
  replace (l1 ++ x :: l2) with ((l1 ++ [x]) ++ l2) by by rewrite <- app_assoc.
  rewrite take_app_length', drop_app_length' by (rewrite length_app; simpl; lia).
  by rewrite <- app_assoc.
Qed.

(** The rearrangement, once the column is set: [cs'] are the columns after
    [df["wikidata"] = chosen]. *)
Lemma arrange_columns (n : nat) (cs' before after : list (str * list cell))
    (code_col : str) (col values : list cell) :
  NoDup cs'.*1 →
  (∀ c, c ∈ before ++ (code_col, col) :: (W, values) :: after → c ∈ cs') →
  code_col ∉ before.*1 →
  py_remove W cs'.*1 = (before ++ (code_col, col) :: after).*1 →
  match py_index code_col (py_remove W cs'.*1) with
  | None => None
  | Some at_code =>
      Some (select (mkDF n cs') (py_insert (at_code + 1) W (py_remove W cs'.*1)))
  end
  = Some (mkDF n (before ++ (code_col, col) :: (W, values) :: after)).
Proof.
  intros Hnd Hin Hcode ->.
  rewrite fmap_app, fmap_cons. simpl.
  rewrite py_index_app by done. rewrite py_insert_after.
  unfold select. simpl. do 2 f_equal.
  replace (before.*1 ++ code_col :: W :: after.*1)
    with ((before ++ (code_col, col) :: (W, values) :: after).*1)
    by (by rewrite fmap_app, !fmap_cons).
  by apply select_labels.
Qed.

(** Setting an existing column keeps the labels. *)
Lemma replace_labels (cs : list (str * list cell)) (values : list cell) :
  ((λ col, if bool_decide (col.1 = W) then (W, values) else col) <$> cs).*1 = cs.*1.
Proof.
  induction cs as [|[n c] cs IH]; [done |].
  rewrite !fmap_cons, IH. f_equal. simpl. by case_bool_decide.
Qed.

End output.

(** Against C10 as stated: an input table that already has a column named
    [wikidata] comes out with that column's cells replaced and the column
    moved next to the code column; no column is added and the order of the
    input columns is not kept. *)
Lemma existing_wikidata_column_overwritten :
  let df := mkDF 1 [(lit "wikidata", [Some (lit "Q_old")]);
                    (lit "Codigo", [Some (lit "LT-100")]);
                    (lit "Un", [Some (lit "220")])] in
  arrange df (lit "Codigo") [lit "Q10"]
  = Some (mkDF 1 [(lit "Codigo", [Some (lit "LT-100")]);
                  (lit "wikidata", [Some (lit "Q10")]);
                  (lit "Un", [Some (lit "220")])])
  ∧ ¬ (∃ out, arrange df (lit "Codigo") [lit "Q10"] = Some out
         ∧ (lit "wikidata", [Some (lit "Q_old")]) ∈ columns out).
Proof.
  intros df. split; [vm_compute; reflexivity |].
  intros (out & Hout & Hin). vm_compute in Hout. injection Hout as <-.
  simpl in Hin. rewrite !elem_of_cons in Hin.
  destruct Hin as [Hin | [Hin | [Hin | Hin]]];
    [vm_compute in Hin; discriminate.. | by apply elem_of_nil in Hin].
Qed.

(** C10, amended. For a table with distinct labels whose code column is not
    itself called [wikidata], and one identifier per row: the output has the
    input columns other than one called [wikidata], cells unchanged and in
    their order, and the column [wikidata] right after the code column,
    holding the identifiers chosen for the rows (empty where none was). When
    the input has no column called [wikidata], that is the input with
    exactly one new column. *)
Theorem wikidata_column_after_code (df : DataFrame) (code_col : str)
    (chosen : list str) :
  NoDup (labels df) →
  code_col ∈ labels df →
  code_col ≠ lit "wikidata" →
  length chosen = nrows df →
  ∃ (before : list (str * list cell)) (col : list cell)
    (after : list (str * list cell)),
    filter (λ c, c.1 ≠ lit "wikidata") (columns df)
    = before ++ (code_col, col) :: after
    ∧ arrange df code_col chosen
      = Some (mkDF (nrows df)
                (before ++ (code_col, col)
                        :: (lit "wikidata", Some <$> chosen) :: after))
    ∧ (lit "wikidata" ∉ labels df →
       columns df = before ++ (code_col, col) :: after).
Proof.
  intros Hnd Hcode Hne Hlen. unfold labels in *.
  apply list_elem_of_fmap in Hcode as ([n col] & -> & Hin). simpl in Hne.
  assert (Hkeep : (n, col) ∈ filter (λ c : str * list cell, c.1 ≠ lit "wikidata")
                               (columns df))
    by (by apply list_elem_of_filter).
  apply list_elem_of_split in Hkeep as (before & after & Hsplit).
  exists before, col, after. simpl.
  assert (Hnd_keep : NoDup (before ++ (n, col) :: after).*1).
  { rewrite <- Hsplit. eapply sublist_NoDup; [exact Hnd |].
    apply fmap_sublist, sublist_filter. }
  assert (Hbefore : n ∉ before.*1).
  { rewrite fmap_app, fmap_cons in Hnd_keep.
    apply NoDup_app in Hnd_keep as (_ & Hdisj & _).
    intros Hb. apply (Hdisj n Hb). by left. }
  assert (Hsub : ∀ c, c ∈ before ++ (n, col) :: after →
                      c ∈ columns df ∧ c.1 ≠ lit "wikidata").
  { intros c Hc. rewrite <- Hsplit in Hc.
    by apply list_elem_of_filter in Hc as [? ?]. }
  split_and!; [done | | intros Hw; by rewrite <- Hsplit, filter_keep_id].
  unfold arrange, set_column.
  rewrite bool_decide_eq_true_2 by (by rewrite length_fmap).
  destruct (has_column df (lit "wikidata")) eqn:Hhas;
    unfold has_column, labels in Hhas.
  - apply bool_decide_eq_true in Hhas.
    unfold labels. cbn [columns nrows].
    rewrite replace_labels, bool_decide_eq_true_2 by done.
    rewrite <- (replace_labels (columns df) (Some <$> chosen)).
    apply arrange_columns.
    + by rewrite replace_labels.
    + intros c Hc. rewrite elem_of_app, !elem_of_cons in Hc.
      assert (Hc' : c = (lit "wikidata", Some <$> chosen)
                    ∨ c ∈ before ++ (n, col) :: after).
      { rewrite elem_of_app, elem_of_cons. tauto. }
      destruct Hc' as [-> | Hc'].
      * apply list_elem_of_fmap in Hhas as ([w c0] & Hw & Hin0). simpl in Hw.
        apply list_elem_of_fmap. exists (w, c0). split; [|done].
        simpl. by rewrite bool_decide_eq_true_2.
      * destruct (Hsub c Hc') as [Hcin Hcne].
        apply list_elem_of_fmap. exists c. split; [|done].
        by rewrite bool_decide_eq_false_2.
    + done.
    + rewrite replace_labels, <- Hsplit. by apply py_remove_labels.
  - apply bool_decide_eq_false in Hhas.
    unfold labels. cbn [columns nrows].
    assert (Hlast : (columns df ++ [(lit "wikidata", Some <$> chosen)]).*1
                    = (columns df).*1 ++ [lit "wikidata"])
      by (by rewrite fmap_app).
    rewrite bool_decide_eq_true_2
      by (rewrite Hlast, elem_of_app, list_elem_of_singleton; by right).
    apply arrange_columns.
    + rewrite Hlast. apply NoDup_app. split_and!; [done | | apply NoDup_singleton].
      intros x Hx ->%list_elem_of_singleton. done.
    + intros c Hc. rewrite elem_of_app, list_elem_of_singleton.
      assert (Hc' : c = (lit "wikidata", Some <$> chosen)
                    ∨ c ∈ before ++ (n, col) :: after).
      { rewrite elem_of_app, !elem_of_cons in Hc.
        rewrite elem_of_app, elem_of_cons. tauto. }
      destruct Hc' as [-> | Hc']; [by right | left; by apply Hsub].
    + done.
    + rewrite Hlast, py_remove_last by done.
      by rewrite <- Hsplit, filter_keep_id.
Qed.

Lemma wikidata_column_after_code_witness :
  arrange (mkDF 2 [(lit "Codigo", [Some (lit "LT-100"); Some (lit "LT-200")]);
                   (lit "Un", [Some (lit "220"); None])])
    (lit "Codigo") [lit "Q10"; []]
  = Some (mkDF 2 [(lit "Codigo", [Some (lit "LT-100"); Some (lit "LT-200")]);
                  (lit "wikidata", [Some (lit "Q10"); Some []]);
                  (lit "Un", [Some (lit "220"); None])]).
Proof.
  destruct (wikidata_column_after_code
              (mkDF 2 [(lit "Codigo", [Some (lit "LT-100"); Some (lit "LT-200")]);
                       (lit "Un", [Some (lit "220"); None])])
              (lit "Codigo") [lit "Q10"; []])
    as (before & col & after & _ & Harr & _).
  - apply (bool_decide_unpack _). by vm_compute.
  - apply (bool_decide_unpack _). by vm_compute.
  - discriminate.
  - reflexivity.
  - vm_compute. reflexivity.
Defined.

(** ** The run *)

(** The run of the specification's end-to-end example: rows LT-100, LT-200,
    LT-100; the endpoint knows one entity for LT-100 and none for LT-200. *)
Example main_end_to_end :
  let df := mkDF 3 [(lit " Codigo", [Some (lit "LT-100"); Some (lit "LT-200");
                                     Some (lit "LT-100")])] in
  let net := λ (q : str) (k : Z),
    PostReturned (mkResponse 200
      (Some [mkBinding (lit "LT-100")
               (lit "http://www.wikidata.org/entity/Q10") []])) in
  main (H := Arith_Q) net df (lit "Codigo") [lit "P528"] (lit "es") 75 5
    (QArith_base.Qmake 8 5)
  = inr (mkDF 3 [(lit "Codigo", [Some (lit "LT-100"); Some (lit "LT-200");
                                 Some (lit "LT-100")]);
                 (lit "wikidata", [Some (lit "Q10"); Some []; Some (lit "Q10")])],
         mkTally [lit "Q10"; []; lit "Q10"] 1 0,
         [Post 1]).
Proof. vm_compute. reflexivity. Qed.

Example build_sparql_example :
  build_sparql_for_codes unicode_decimal [lit "P528"] [lit "LT-100"; lit "LT-200"]
    (lit "es")
  = nl ++ lit "SELECT ?item ?code ?desc WHERE {" ++ nl
       ++ lit "  VALUES ?code { " ++ [34] ++ lit "LT-100" ++ [34; 32; 34]
       ++ lit "LT-200" ++ [34] ++ lit " }" ++ nl
       ++ lit "  {?item wdt:P528 ?code .}" ++ nl
       ++ lit "  OPTIONAL {" ++ nl
       ++ lit "    ?item schema:description ?desc ." ++ nl
       ++ lit "    FILTER (LANG(?desc) = " ++ [34] ++ lit "es" ++ [34] ++ lit ")" ++ nl
       ++ lit "  }" ++ nl ++ lit "}" ++ nl.
Proof. vm_compute. reflexivity. Qed.

(** A run that ends with a table wrote, for every row, the outcome of that
    row against the hit index it fetched, next to the code column. *)
Lemma main_output `{Arith F} (net : str → Z → posted) (df0 : DataFrame)
    (code_col : str) (match_props : list str) (lang : str)
    (batch_size retries : Z) (backoff : F)
    (out : DataFrame) (tally : Tally) (trace : list (event F)) :
  main net df0 code_col match_props lang batch_size retries backoff
  = inr (out, tally, trace) →
  ∃ (col : list cell) (batches : list (list str))
    (code_hits : gmap str (list Hit)),
    get_column (strip_labels df0) code_col = Some col
    ∧ batches_of (codes_of col) batch_size = Some batches
    ∧ fetch_hits net match_props lang retries backoff batches ∅ []
      = inr (code_hits, trace)
    ∧ resolve_rows code_hits (ext_tokens_of (strip_labels df0)) 0 col tally0
      = Some tally
    ∧ arrange (strip_labels df0) code_col (chosen tally) = Some out
    ∧ ∀ (i : nat) (c : cell), col !! i = Some c →
        ∃ token, ext_tokens_of (strip_labels df0) !! i = Some token
          ∧ chosen tally !! i
            = chosen (resolve_row code_hits c token tally0) !! 0%nat.
Proof.
  unfold main. intros Hmain.
  destruct (get_column (strip_labels df0) code_col) as [col|] eqn:Hcol; [|done].
  destruct (batches_of (codes_of col) batch_size) as [batches|] eqn:Hb; [|done].
  destruct (fetch_hits _ _ _ _ _ _ _ _) as [err | [code_hits tr]] eqn:Hf;
    [done |].
  destruct (resolve_rows _ _ _ _ _) as [t|] eqn:Hrows; [|done].
  destruct (arrange _ _ _) as [o|] eqn:Harr; [|done].
  injection Hmain as <- <- <-.
  exists col, batches, code_hits. split_and!; try done.
  intros i c Hc. by apply (resolve_rows_lookup _ _ _ _ _ _ Hrows).
Qed.

(* ================================================================== *)
(** * Further properties of the code *)

(** ** The hit index *)

Lemma add_binding_lookup (code_hits : gmap str (list Hit)) (b : Binding)
    (code : str) :
  default [] (add_binding code_hits b !! code)
  = default [] (code_hits !! code)
    ++ (if bool_decide (b_code b = code ∧ b_code b ≠ [] ∧ b_item b ≠ [])
        then [mkHit (qid_from_uri (b_item b)) (b_desc b)] else []).
Proof.
  unfold add_binding.
  destruct (b_code b) as [|x cs] eqn:Ec.
  { rewrite bool_decide_eq_false_2 by (intros (_ & ? & _); done).
    by rewrite app_nil_r. }
  destruct (b_item b) as [|y it] eqn:Ei.
  { rewrite bool_decide_eq_false_2 by (intros (_ & _ & ?); done).
    by rewrite app_nil_r. }
  destruct (decide (x :: cs = code)) as [<- | Hne].
  - rewrite lookup_insert_eq, bool_decide_eq_true_2 by done. done.
  - rewrite lookup_insert_ne by done.
    rewrite bool_decide_eq_false_2 by (intros (? & _ & _); done).
    by rewrite app_nil_r.
Qed.

Lemma add_bindings_hits (bs : list Binding) :
  ∀ (code_hits : gmap str (list Hit)) (code : str),
    default [] (add_bindings code_hits bs !! code)
    = default [] (code_hits !! code)
      ++ ((λ b, mkHit (qid_from_uri (b_item b)) (b_desc b))
            <$> filter (λ b, b_code b = code ∧ b_code b ≠ [] ∧ b_item b ≠ []) bs).
Proof.
  unfold add_bindings.
  induction bs as [|b bs IH]; intros code_hits code; simpl.
  - by rewrite app_nil_r.
  - rewrite IH, add_binding_lookup, <- app_assoc. f_equal.
    rewrite filter_cons. destruct (decide _) as [Hb | Hb].
    + by rewrite bool_decide_eq_true_2.
    + by rewrite bool_decide_eq_false_2.
Qed.

(** X1. After the bindings of a response are merged, the hits of a code are
    those it had, followed by one hit per binding of that code whose code
    and item are not empty, in the order of the response; nothing is
    dropped as a duplicate, and the entry of a code that no binding names
    is left as it was. *)
Theorem add_bindings_lookup (bs : list Binding)
    (code_hits : gmap str (list Hit)) (code : str) :
  default [] (add_bindings code_hits bs !! code)
  = default [] (code_hits !! code)
    ++ ((λ b, mkHit (qid_from_uri (b_item b)) (b_desc b))
          <$> filter (λ b, b_code b = code ∧ b_code b ≠ [] ∧ b_item b ≠ []) bs)
  ∧ ((∀ b, b ∈ bs → b_code b ≠ code) →
     add_bindings code_hits bs !! code = code_hits !! code).
Proof.
  split; [apply add_bindings_hits |].
  unfold add_bindings. revert code_hits.
  induction bs as [|b bs IH]; intros code_hits Hother; simpl; [done |].
  rewrite IH by (intros b' Hb'; apply Hother; by right).
  unfold add_binding.
  destruct (b_code b) as [|x cs] eqn:Ec; [done |].
  destruct (b_item b) as [|y it]; [done |].
  apply lookup_insert_ne. rewrite <- Ec. apply Hother. by left.
Qed.

Lemma add_bindings_lookup_witness :
  add_bindings {[ lit "LT-9" := [mkHit (lit "Q9") []] ]}
    [mkBinding (lit "LT-1") (lit "http://w/entity/Q1") []] !! lit "LT-9"
  = ({[ lit "LT-9" := [mkHit (lit "Q9") []] ]} : gmap str (list Hit)) !! lit "LT-9".
Proof.
  apply (proj2 (add_bindings_lookup
                  [mkBinding (lit "LT-1") (lit "http://w/entity/Q1") []]
                  {[ lit "LT-9" := [mkHit (lit "Q9") []] ]} (lit "LT-9"))).
  intros b Hb. apply list_elem_of_singleton in Hb as ->. discriminate.
Defined.

(** X2. The hit index never holds an empty list nor the empty code: if that
    is so before a response is merged, it is so after. Hence a row finds no
    hit exactly when its code is not a key of the index. *)
Theorem hit_index_invariant (bs : list Binding) :
  ∀ code_hits : gmap str (list Hit),
    (∀ code hits, code_hits !! code = Some hits → code ≠ [] ∧ hits ≠ []) →
    (∀ code hits, add_bindings code_hits bs !! code = Some hits →
       code ≠ [] ∧ hits ≠ [])
    ∧ (∀ code, default [] (add_bindings code_hits bs !! code) = []
               ↔ add_bindings code_hits bs !! code = None).
Proof.
  assert (Hinv : ∀ code_hits : gmap str (list Hit),
    (∀ code hits, code_hits !! code = Some hits → code ≠ [] ∧ hits ≠ []) →
    ∀ code hits, add_bindings code_hits bs !! code = Some hits →
       code ≠ [] ∧ hits ≠ []).
  { unfold add_bindings. induction bs as [|b bs IH]; intros code_hits Hok;
      simpl; [done |].
    apply IH. intros code hits. unfold add_binding.
    destruct (b_code b) as [|x cs] eqn:Ec; [apply Hok |].
    destruct (b_item b) as [|y it] eqn:Ei; [apply Hok |].
    destruct (decide (x :: cs = code)) as [<- | Hne].
    - rewrite lookup_insert_eq. intros [= <-]. split; [done |].
      by destruct (default [] (code_hits !! (x :: cs))).
    - rewrite lookup_insert_ne by done. apply Hok. }
  intros code_hits Hok. split; [by apply Hinv |].
  intros code. destruct (add_bindings code_hits bs !! code) as [hits|] eqn:E;
    simpl; [|done].
  destruct (Hinv code_hits Hok code hits E) as [_ Hne]. split; [done | done].
Qed.

Lemma hit_index_invariant_witness :
  default [] (add_bindings ∅
                [mkBinding (lit "LT-1") (lit "http://w/entity/Q1") [];
                 mkBinding [] (lit "http://w/entity/Q2") []] !! lit "LT-2") = []
  ↔ add_bindings ∅ [mkBinding (lit "LT-1") (lit "http://w/entity/Q1") [];
                    mkBinding [] (lit "http://w/entity/Q2") []] !! lit "LT-2"
    = None.
Proof.
  apply (proj2 (hit_index_invariant
                  [mkBinding (lit "LT-1") (lit "http://w/entity/Q1") [];
                   mkBinding [] (lit "http://w/entity/Q2") []] ∅
                  ltac:(intros code hits Hc; by rewrite lookup_empty in Hc))).
Defined.

(** ** Entity identifiers *)

Lemma str_in_char (x : N) (s : str) : str_in [x] s = true ↔ x ∈ s.
Proof.
  rewrite str_in_spec. split.
  - intros (a & b & ->). set_unfold. right. by left.
  - intros (a & b & ->)%list_elem_of_split. by exists a, b.
Qed.

(** X3. [qid_from_uri] returns what follows the last slash: the result has
    no slash; a URI without slash is returned whole; otherwise the URI is
    some prefix, a slash, and the result. *)
Theorem qid_from_uri_last_segment (uri : str) :
  (47 ∉ qid_from_uri uri)
  ∧ (47 ∉ uri → qid_from_uri uri = uri)
  ∧ (47 ∈ uri → ∃ prefix, uri = prefix ++ [47] ++ qid_from_uri uri).
Proof.
  induction uri as [|c rest (IH1 & IH2 & IH3)]; simpl.
  - split_and!; [apply not_elem_of_nil | done | by intros ?%elem_of_nil].
  - change (lit "/") with [47].
    destruct (str_in [47] rest) eqn:Hin.
    + apply str_in_char in Hin. split_and!; [done | |].
      * intros Hno. exfalso. apply Hno. by right.
      * intros _. destruct (IH3 Hin) as [prefix Hp].
        exists (c :: prefix). simpl. f_equal. exact Hp.
    + assert (Hrest : 47 ∉ rest).
      { intros H%str_in_char. congruence. }
      destruct (N.eqb_spec c 47) as [-> | Hc].
      * split_and!; [done | | ].
        -- intros Hno. exfalso. apply Hno. by left.
        -- intros _. by exists [].
      * split_and!.
        -- by intros [? | ?]%elem_of_cons.
        -- done.
        -- intros [? | ?]%elem_of_cons; done.
Qed.

Lemma qid_from_uri_last_segment_witness :
  ∃ prefix, lit "http://www.wikidata.org/entity/Q10"
            = prefix ++ [47] ++ qid_from_uri (lit "http://www.wikidata.org/entity/Q10").
Proof.
  apply (proj2 (proj2 (qid_from_uri_last_segment
                         (lit "http://www.wikidata.org/entity/Q10")))).
  apply (bool_decide_unpack _). by vm_compute.
Defined.

(** ** What the row loop writes *)

(** The outcome of one row: one identifier, empty or taken from a hit of the
    row's code, and at most one of "identifier written", "unresolved",
    "ambiguous". *)
Lemma resolve_row_outcome (code_hits : gmap str (list Hit)) (c : cell)
    (token : str) :
  let hits := default [] (code_hits !! strip (py_str c)) in
  let o := resolve_row code_hits c token tally0 in
  ∃ q : str,
    chosen o = [q]
    ∧ (q = [] ∨ ∃ h, h ∈ hits ∧ q = qid h)
    ∧ (length (filter (λ x, x ≠ []) [q]) + unresolved o + ambiguous o ≤ 1)%nat
    ∧ ((∀ h, h ∈ hits → qid h ≠ []) →
       (length (filter (λ x, x ≠ []) [q]) + unresolved o + ambiguous o = 1)%nat).
Proof.
  intros hits o. subst o. unfold resolve_row. fold hits.
  assert (Hq : ∀ h, h ∈ hits →
            (length (filter (λ x : str, x ≠ []) [qid h]) ≤ 1)%nat
            ∧ (qid h ≠ [] → length (filter (λ x : str, x ≠ []) [qid h]) = 1%nat)).
  { intros h _. rewrite filter_cons. destruct (decide _); simpl; split; (lia || done). }
  destruct hits as [|h0 hs] eqn:Eh.
  - exists []. simpl. split_and!; [done | by left | done | done].
  - destruct (_ || _).
    + exists (qid h0). simpl chosen. simpl unresolved. simpl ambiguous.
      destruct (Hq h0 ltac:(by left)) as [Hle Heq].
      split_and!; [done | right; exists h0; split; [by left | done] | lia |].
      intros Hne. rewrite Heq; [lia | apply Hne; by left].
    + destruct (with_ext (ext_tag token) (h0 :: hs)) as [|w [|w' ws]] eqn:Ew.
      * exists []. simpl. split_and!; [done | by left | done | done].
      * assert (Hw : w ∈ h0 :: hs).
        { assert (Hin : In w (with_ext (ext_tag token) (h0 :: hs)))
            by (rewrite Ew; by left).
          unfold with_ext in Hin. apply filter_In in Hin as [Hin _].
          by apply list_elem_of_In. }
        exists (qid w). simpl chosen. simpl unresolved. simpl ambiguous.
        destruct (Hq w Hw) as [Hle Heq].
        split_and!; [done | right; by exists w | lia |].
        intros Hne. rewrite Heq; [lia | by apply Hne].
      * exists []. simpl. split_and!; [done | by left | done | done].
Qed.

(** X4. No identifier is made up: whatever a run writes for a row is the
    empty string or the identifier of one of the hits recorded for that
    row's code. *)
Theorem chosen_never_fabricated (code_hits : gmap str (list Hit))
    (ext_tokens : list str) (cells : list cell) (t : Tally) (i : nat) (q : str) :
  resolve_rows code_hits ext_tokens 0 cells tally0 = Some t →
  chosen t !! i = Some q →
  ∃ c, cells !! i = Some c
       ∧ (q = [] ∨ ∃ h, h ∈ default [] (code_hits !! strip (py_str c))
                        ∧ q = qid h).
Proof.
  intros Hrun Hq.
  destruct (resolve_rows_outs _ _ _ _ _ _ Hrun) as (outs & Hch & Hlen & _).
  simpl in Hch. subst outs.
  destruct (lookup_lt_is_Some_2 cells i) as [c Hc].
  { rewrite <- Hlen. by eapply lookup_lt_Some. }
  exists c. split; [done |].
  destruct (resolve_rows_lookup _ _ _ _ _ _ Hrun Hc) as (token & _ & Hi).
  destruct (resolve_row_outcome code_hits c token) as (q' & Hq' & Hfrom & _).
  rewrite Hq in Hi. rewrite Hq' in Hi. simpl in Hi. by injection Hi as ->.
Qed.

Lemma chosen_never_fabricated_witness :
  ∃ c, [Some (lit "LT-1"); Some (lit "LT-2")] !! 0%nat = Some c
       ∧ (lit "Q1" = []
          ∨ ∃ h, h ∈ default [] (({[ lit "LT-1" := [mkHit (lit "Q1") []] ]}
                                   : gmap str (list Hit)) !! strip (py_str c))
                 ∧ lit "Q1" = qid h).
Proof.
  apply (chosen_never_fabricated {[ lit "LT-1" := [mkHit (lit "Q1") []] ]}
           [[]; []] [Some (lit "LT-1"); Some (lit "LT-2")]
           (mkTally [lit "Q1"; []] 1 0) 0 (lit "Q1")).
  - vm_compute. reflexivity.
  - reflexivity.
Defined.

(** X5. The summary of a run adds up: there is one identifier per row; rows
    with an identifier, unresolved rows and ambiguous rows never count more
    than the rows; and they count exactly the rows when no hit of the index
    has an empty identifier. *)
Theorem summary_adds_up (code_hits : gmap str (list Hit))
    (ext_tokens : list str) (cells : list cell) :
  ∀ (i : nat) (t : Tally),
    resolve_rows code_hits ext_tokens i cells tally0 = Some t →
    let with_qid := length (filter (λ x, x ≠ []) (chosen t)) in
    length (chosen t) = length cells
    ∧ (with_qid + unresolved t + ambiguous t ≤ length cells)%nat
    ∧ ((∀ code hits h, code_hits !! code = Some hits → h ∈ hits → qid h ≠ []) →
       (with_qid + unresolved t + ambiguous t = length cells)%nat).
Proof.
  induction cells as [|c cells IH]; intros i t Hrun; simpl in Hrun.
  - injection Hrun as <-. by simpl.
  - destruct (ext_tokens !! i) as [token|]; [|done].
    rewrite resolve_rows_frame in Hrun.
    destruct (resolve_rows code_hits ext_tokens (S i) cells tally0) as [t0|] eqn:E0;
      [|done].
    injection Hrun as <-. simpl.
    destruct (IH _ _ E0) as (Hlen & Hle & Heq).
    destruct (resolve_row_outcome code_hits c token) as (q & Hq & _ & Hle1 & Heq1).
    rewrite Hq in *. rewrite filter_app, !length_app. simpl length at 1.
    split_and!; [lia | lia |].
    intros Hne. specialize (Heq Hne).
    assert (Hhits : ∀ h, h ∈ default [] (code_hits !! strip (py_str c)) →
                         qid h ≠ []).
    { intros h Hh. destruct (code_hits !! strip (py_str c)) as [hits|] eqn:Ec;
        simpl in Hh; [by apply (Hne _ _ _ Ec) | by apply elem_of_nil in Hh]. }
    specialize (Heq1 Hhits). lia.
Qed.

Lemma summary_adds_up_witness :
  let t := mkTally [lit "Q10"; []; lit "Q10"] 1 0 in
  length (chosen t) = 3%nat
  ∧ (length (filter (λ x, x ≠ []) (chosen t)) + unresolved t + ambiguous t
     = 3)%nat.
Proof.
  intros t.
  destruct (summary_adds_up {[ lit "LT-100" := [mkHit (lit "Q10") []] ]}
              [[]; []; []]
              [Some (lit "LT-100"); Some (lit "LT-200"); Some (lit "LT-100")]
              0 t) as (Hlen & _ & Heq).
  - vm_compute. reflexivity.
  - split; [exact Hlen |]. apply Heq.
    intros code hits h Hc Hh.
    apply lookup_singleton_Some in Hc as [_ <-].
    apply list_elem_of_singleton in Hh as ->. discriminate.
Defined.

(** ** The retry client, whatever the endpoint does *)



(** X7. With [retries] at most 1 (zero and negative values included) a send
    is a single request: its outcome is returned or raised at once and the
    client never sleeps. *)
Theorem single_attempt_when_retries_at_most_one `{Arith F}
    (net : Z → posted) (retries : Z) (backoff : F) :
  (retries ≤ 1)%Z →
  http_post_sparql net retries backoff = Some (attempt_body (net 1%Z), [Post 1]).
Proof.
  intros Hr. unfold http_post_sparql.
  replace (Z.to_nat (Z.max 1 retries)) with 1%nat by lia.
  unfold http_post_sparql_loop. change (0 + 1)%Z with 1%Z.
  destruct (attempt_body (net 1%Z)) as [e | data]; [|done].
  destruct (Z.geb_spec 1 retries); [done | lia].
Qed.

Lemma single_attempt_when_retries_at_most_one_witness :
  http_post_sparql (H := Arith_Q) (λ _, PostFailed) 0 (QArith_base.Qmake 8 5)
  = Some (inl TransportError, [Post 1]).
Proof.
  apply (single_attempt_when_retries_at_most_one (H := Arith_Q)
           (λ _, PostFailed) 0 (QArith_base.Qmake 8 5)).
  lia.
Defined.



(** ** The run as a whole *)

Lemma resolve_rows_empty_index (ext_tokens : list str) (cells : list cell) :
  ∀ (i : nat) (st t : Tally),
    resolve_rows ∅ ext_tokens i cells st = Some t →
    t = mkTally (chosen st ++ replicate (length cells) [])
                (unresolved st + length cells) (ambiguous st).
Proof.
  induction cells as [|c cells IH]; intros i st t Hrun; simpl in Hrun.
  - injection Hrun as <-. destruct st; simpl. rewrite app_nil_r. f_equal. lia.
  - destruct (ext_tokens !! i) as [token|]; [|done].
    apply IH in Hrun as ->. unfold resolve_row. rewrite lookup_empty. simpl.
    rewrite <- app_assoc. f_equal. lia.
Qed.

Lemma codes_of_nil (col : list cell) :
  (∀ c, c ∈ col → strip (fillna c) = []) → codes_of col = [].
Proof.
  intros Hblank. destruct (codes_of col) as [|x l] eqn:E; [done |].
  destruct (codes_of_spec col) as (Hmem & _).
  destruct (proj1 (Hmem x)) as [Hne (c & Hc & ->)]; [rewrite E; by left |].
  by rewrite Hblank in Hne.
Qed.

Lemma batches_of_nil (batch_size : Z) :
  batch_size ≠ 0%Z → batches_of [] batch_size = Some [].
Proof.
  intros Hne. unfold batches_of, py_range. simpl.
  destruct (Z.eqb_spec batch_size 0); [done |].
  destruct (Z.ltb_spec batch_size 0); [done |].
  rewrite Z.div_small by lia. done.
Qed.

(** X9. A table with distinct trimmed labels whose code cells are all
    blank or missing is answered without any request: a run that ends with
    a table made no request, left every row unresolved with the empty
    identifier, and counted no ambiguity. *)
Theorem no_codes_no_request `{Arith F} (net : str → Z → posted)
    (df0 : DataFrame) (code_col : str) (match_props : list str) (lang : str)
    (batch_size retries : Z) (backoff : F) (col : list cell)
    (out : DataFrame) (tally : Tally) (trace : list (event F)) :
  NoDup (labels (strip_labels df0)) →
  get_column (strip_labels df0) code_col = Some col →
  (∀ c, c ∈ col → strip (fillna c) = []) →
  main net df0 code_col match_props lang batch_size retries backoff
  = inr (out, tally, trace) →
  trace = []
  ∧ tally = mkTally (replicate (length col) []) (length col) 0
  ∧ arrange (strip_labels df0) code_col (replicate (length col) []) = Some out.
Proof.
  intros _ Hcol Hblank. unfold main. rewrite Hcol, (codes_of_nil col Hblank).
  destruct (decide (batch_size = 0%Z)) as [-> | Hbs]; [done |].
  rewrite batches_of_nil by done. simpl.
  destruct (resolve_rows _ _ _ _ _) as [t|] eqn:Hrun; [|done].
  apply resolve_rows_empty_index in Hrun as ->. simpl.
  destruct (arrange _ _ _) as [o|] eqn:Harr; [|done].
  by intros [= <- <- <-].
Qed.

Lemma no_codes_no_request_witness :
  let df := mkDF 2 [(lit "Codigo", [None; Some (lit "  ")]);
                    (lit "Un", [Some (lit "220"); Some (lit "110")])] in
  arrange (strip_labels df) (lit "Codigo") (replicate 2 [])
  = Some (mkDF 2 [(lit "Codigo", [None; Some (lit "  ")]);
                  (lit "wikidata", [Some []; Some []]);
                  (lit "Un", [Some (lit "220"); Some (lit "110")])]).
Proof.
  intros df.
  apply (no_codes_no_request (H := Arith_Q) (λ _ _, PostFailed) df (lit "Codigo")
           [lit "P528"] (lit "es") 75 5 (QArith_base.Qmake 8 5)
           [None; Some (lit "  ")]
           (mkDF 2 [(lit "Codigo", [None; Some (lit "  ")]);
                    (lit "wikidata", [Some []; Some []]);
                    (lit "Un", [Some (lit "220"); Some (lit "110")])])
           (mkTally [[]; []] 2 0) []).
  - apply (bool_decide_unpack _). by vm_compute.
  - vm_compute. reflexivity.
  - intros c Hc. apply elem_of_cons in Hc as [-> | Hc]; [reflexivity |].
    apply list_elem_of_singleton in Hc as ->. vm_compute. reflexivity.
  - vm_compute. reflexivity.
Defined.




Lemma fetch_hits_all_first `{Arith F} (net : str → Z → posted)
    (match_props : list str) (lang : str) (retries : Z) (backoff : F)
    (data : str → list Binding) (batches : list (list str)) :
  (∀ q, attempt_body (net q 1%Z) = inr (data q)) →
  ∀ (code_hits : gmap str (list Hit)) (trace : list (event F)),
    fetch_hits net match_props lang retries backoff batches code_hits trace
    = inr (foldl (λ hits batch,
                    add_bindings hits
                      (data (build_sparql_for_codes unicode_decimal match_props
                               batch lang)))
                 code_hits batches,
           trace ++ replicate (length batches) (Post 1)).
Proof.
  intros Hok. induction batches as [|batch batches IH]; intros code_hits trace;
    simpl.
  - by rewrite app_nil_r.
  - rewrite (first_success _ retries backoff _ (Hok _)).
    rewrite IH. by rewrite <- app_assoc.
Qed.

(** X11. When the endpoint answers every query at the first attempt, a run
    on a table with distinct trimmed labels makes exactly one request per
    batch and never sleeps in the client: with a positive batch size, the
    codes counted up to whole batches. *)
Theorem one_request_per_batch `{Arith F} (net : str → Z → posted)
    (df0 : DataFrame) (code_col : str) (match_props : list str) (lang : str)
    (batch_size retries : Z) (backoff : F) (data : str → list Binding)
    (out : DataFrame) (tally : Tally) (trace : list (event F)) :
  NoDup (labels (strip_labels df0)) →
  (∀ q, attempt_body (net q 1%Z) = inr (data q)) →
  main net df0 code_col match_props lang batch_size retries backoff
  = inr (out, tally, trace) →
  ∃ (col : list cell) (batches : list (list str)),
    get_column (strip_labels df0) code_col = Some col
    ∧ batches_of (codes_of col) batch_size = Some batches
    ∧ trace = replicate (length batches) (Post 1)
    ∧ ((0 < batch_size)%Z →
       length batches
       = ((length (codes_of col) + Z.to_nat batch_size - 1)
            / Z.to_nat batch_size)%nat).
Proof.
  intros _ Hok. unfold main.
  destruct (get_column (strip_labels df0) code_col) as [col|] eqn:Hcol; [|done].
  destruct (batches_of (codes_of col) batch_size) as [batches|] eqn:Hb; [|done].
  rewrite (fetch_hits_all_first _ _ _ _ _ data batches Hok).
  destruct (resolve_rows _ _ _ _ _) as [t|]; [|done].
  destruct (arrange _ _ _) as [o|]; [|done].
  intros [= <- <- <-]. exists col, batches. split_and!; [done | done | done |].
  intros Hbs. rewrite (batches_of_chunks _ _ Hbs) in Hb. injection Hb as <-.
  by rewrite length_fmap, length_seq.
Qed.

Lemma one_request_per_batch_witness :
  ∃ (col : list cell) (batches : list (list str)),
    get_column (strip_labels
                  (mkDF 3 [(lit "Codigo", [Some (lit "LT-1"); Some (lit "LT-2");
                                           Some (lit "LT-3")])]))
      (lit "Codigo") = Some col
    ∧ batches_of (codes_of col) 2 = Some batches
    ∧ [Post 1; Post 1] = replicate (length batches) (Post (F := QArith_base.Q) 1).
Proof.
  destruct (one_request_per_batch (H := Arith_Q)
              (λ _ _, PostReturned (mkResponse 200 (Some [])))
              (mkDF 3 [(lit "Codigo", [Some (lit "LT-1"); Some (lit "LT-2");
                                       Some (lit "LT-3")])])
              (lit "Codigo") [lit "P528"] (lit "es") 2 5 (QArith_base.Qmake 8 5)
              (λ _, [])
              (mkDF 3 [(lit "Codigo", [Some (lit "LT-1"); Some (lit "LT-2");
                                       Some (lit "LT-3")]);
                       (lit "wikidata", [Some []; Some []; Some []])])
              (mkTally [[]; []; []] 3 0) [Post 1; Post 1])
    as (col & batches & Hcol & Hb & Htr & _).
  - apply (bool_decide_unpack _). by vm_compute.
  - reflexivity.
  - vm_compute. reflexivity.
  - by exists col, batches.
Defined.

Lemma py_index_None (x : str) (l : list str) : py_index x l = None ↔ x ∉ l.
Proof.
  unfold py_index. rewrite fmap_None, list_find_None, Forall_forall. split.
  - intros Hall Hin. by apply (Hall x Hin).
  - intros Hnot y Hy ->. done.
Qed.

Lemma elem_of_kept_labels (cs : list (str * list cell)) (x : str) :
  x ∈ (filter (λ col : str * list cell, col.1 ≠ lit "wikidata") cs).*1
  ↔ x ∈ cs.*1 ∧ x ≠ lit "wikidata".
Proof.
  rewrite !list_elem_of_fmap. split.
  - intros ([n c] & -> & [Hn Hin]%list_elem_of_filter). split; [by exists (n, c) | done].
  - intros [([n c] & -> & Hin) Hne]. exists (n, c). split; [done |].
    by apply list_elem_of_filter.
Qed.

(** When the rearrangement has no place for the column. *)
Lemma arrange_None (df : DataFrame) (code_col : str) (chosen : list str) :
  NoDup (labels df) →
  arrange df code_col chosen = None
  ↔ length chosen ≠ nrows df ∨ code_col ∉ labels df ∨ code_col = lit "wikidata".
Proof.
  intros Hnd. unfold arrange, set_column. rewrite length_fmap.
  destruct (decide (length chosen = nrows df)) as [Hlen | Hlen].
  2:{ rewrite bool_decide_eq_false_2 by done. split; [by left | done]. }
  rewrite bool_decide_eq_true_2 by done.
  assert (Hiff : ∀ cols : list str,
            (code_col ∈ cols ↔ code_col ∈ labels df ∧ code_col ≠ lit "wikidata") →
            match py_index code_col cols with
            | Some at_code => Some (select
                (if has_column df (lit "wikidata")
                 then mkDF (nrows df)
                        ((λ col, if bool_decide (col.1 = lit "wikidata")
                                 then (lit "wikidata", Some <$> chosen) else col)
                           <$> columns df)
                 else mkDF (nrows df)
                        (columns df ++ [(lit "wikidata", Some <$> chosen)]))
                (py_insert (at_code + 1) (lit "wikidata") cols))
            | None => None
            end = None
            ↔ length chosen ≠ nrows df ∨ code_col ∉ labels df
              ∨ code_col = lit "wikidata").
  { intros cols Hcols. destruct (py_index code_col cols) as [i|] eqn:Ei.
    - split; [done |]. intros [? | Hbad]; [done |]. exfalso.
      assert (Hin : code_col ∈ cols).
      { destruct (decide (code_col ∈ cols)) as [? | Hno]; [done |].
        apply py_index_None in Hno. congruence. }
      apply Hcols in Hin as [? ?]. by destruct Hbad.
    - split; [|done]. intros _. right. apply py_index_None in Ei.
      destruct (decide (code_col ∈ labels df)) as [Hin | ?]; [|by left].
      right. destruct (decide (code_col = lit "wikidata")) as [? | Hne]; [done |].
      exfalso. apply Ei, Hcols. done. }
  unfold has_column in *. unfold labels in *.
  destruct (decide (lit "wikidata" ∈ (columns df).*1)) as [Hw | Hw].
  - rewrite (bool_decide_eq_true_2 _ Hw) in *. cbn [columns].
    rewrite replace_labels, (bool_decide_eq_true_2 _ Hw).
    rewrite py_remove_labels by done. apply Hiff, elem_of_kept_labels.
  - rewrite (bool_decide_eq_false_2 _ Hw) in *. cbn [columns].
    rewrite fmap_app. simpl.
    rewrite bool_decide_eq_true_2
      by (rewrite elem_of_app, list_elem_of_singleton; by right).
    rewrite py_remove_last by done. apply Hiff. split.
    + intros Hin. split; [done | by intros ->].
    + by intros [? _].
Qed.

(** X12. With distinct labels, the rearrangement of the output fails (the
    ValueError of [main]) exactly when the identifiers are not one per row,
    the code column is not in the table, or the code column is itself
    called [wikidata]: in that last case the identifiers overwrite the code
    column first and its label is then removed. *)
Theorem arrange_fails_exactly_when (df : DataFrame) (code_col : str)
    (chosen : list str) :
  NoDup (labels df) →
  (arrange df code_col chosen = None
   ↔ length chosen ≠ nrows df ∨ code_col ∉ labels df
     ∨ code_col = lit "wikidata")
  ∧ (length chosen = nrows df → arrange df (lit "wikidata") chosen = None).
Proof.
  intros Hnd. split; [by apply arrange_None |].
  intros Hlen. apply arrange_None; [done |]. by right; right.
Qed.

Lemma arrange_fails_exactly_when_witness :
  arrange (mkDF 1 [(lit "wikidata", [Some (lit "LT-1")]);
                   (lit "Un", [Some (lit "220")])])
    (lit "wikidata") [lit "Q1"]
  = None.
Proof.
  apply (proj2 (arrange_fails_exactly_when
                  (mkDF 1 [(lit "wikidata", [Some (lit "LT-1")]);
                           (lit "Un", [Some (lit "220")])])
                  (lit "wikidata") [lit "Q1"]
                  ltac:(apply (bool_decide_unpack _); by vm_compute))).
  reflexivity.
Defined.




(** ** The tag written by [generate_qs_csv.py] and read by the merge *)

Lemma with_ext_none (tag : str) (hits : list Hit) :
  (∀ h, h ∈ hits → str_in tag (desc h) = false) → with_ext tag hits = [].
Proof.
  unfold with_ext. induction hits as [|h hits IH]; intros Hno; [done |].
  simpl. rewrite (Hno h) by (by left). apply IH. intros h' Hh'. apply Hno. by right.
Qed.

(** X14. The description that [generate_qs_csv.py] writes for a row carries
    the tag of the token taken on the row's feature identity and trimmed
    coordinates, as that script read them ([keep_default_na=False]: the text
    of the field). The merge reads its table with the default handling of
    missing values, so its cells [fid_cell] and [coords_cell] for that row
    are given apart. When these hold the same text as the generator read, a
    missing cell standing for the empty text only, and the coordinates have
    no surrounding white space, the merge computes the same token for that
    row and, among several hits of its code of which only that description
    carries the tag, picks the entity with that description. *)
Theorem generated_tag_selects_its_entity (tramo fid coords : str) :
  str_in (ext_tag (sha1_token fid (strip coords)))
         (qs_description tramo fid coords) = true
  ∧ (∀ (fid_cell coords_cell : cell),
       fillna fid_cell = fid →
       fillna coords_cell = coords →
       strip coords = coords →
       ∀ (code_hits : gmap str (list Hit)) (c : cell) (st : Tally)
         (h : Hit) (before after : list Hit),
         default [] (code_hits !! strip (py_str c)) = before ++ h :: after →
         before ++ after ≠ [] →
         desc h = qs_description tramo fid coords →
         (∀ h', h' ∈ before ++ after →
                str_in (ext_tag (sha1_token fid coords)) (desc h') = false) →
         resolve_row code_hits c
           (sha1_token (fillna fid_cell) (fillna coords_cell)) st
         = mkTally (chosen st ++ [qid h]) (unresolved st) (ambiguous st)).
Proof.
  assert (Htag : str_in (ext_tag (sha1_token fid (strip coords)))
                        (qs_description tramo fid coords) = true).
  { apply str_in_spec. unfold qs_description, ext_tag, ext_token.
    fold (sha1_token fid (strip coords)).
    exists ((if bool_decide (strip tramo = []) then default_description
             else strip tramo) ++ [32]), [].
    change (lit " [EXT:") with (32 :: lit "[EXT:").
    rewrite app_nil_r, <- !app_assoc. reflexivity. }
  split; [done |].
  intros fid_cell coords_cell Hfid Hcoords Htrim.
  intros code_hits c st h before after Hhits Hmany Hdesc Hothers.
  rewrite Htrim in Htag. rewrite Hfid, Hcoords.
  set (token := sha1_token fid coords) in *.
  assert (Htok : token ≠ []).
  { intros Hnil. pose proof (length_sha1_token fid coords) as Hlen.
    fold token in Hlen. by rewrite Hnil in Hlen. }
  assert (Hkept : with_ext (ext_tag token) (before ++ h :: after) = [h]).
  { unfold with_ext. rewrite List.filter_app. simpl. rewrite Hdesc, Htag.
    fold (with_ext (ext_tag token) before) (with_ext (ext_tag token) after).
    rewrite !with_ext_none; [done | |];
      intros h' Hh'; apply Hothers; rewrite elem_of_app; auto. }
  unfold resolve_row. rewrite Hhits.
  rewrite (bool_decide_eq_false_2 _ Htok), Hkept.
  destruct before as [|b0 before'].
  - destruct after as [|a0 after']; [done |]. reflexivity.
  - simpl. rewrite length_app. simpl.
    replace (length before' + S (length after) =? 0)%nat with false
      by (symmetry; apply Nat.eqb_neq; lia).
    reflexivity.
Qed.

Lemma generated_tag_selects_its_entity_witness :
  let d := qs_description (lit "Tramo norte") (lit "feat-1") (lit "geomdata") in
  resolve_row {[ lit "LT-1" := [mkHit (lit "Q7") (lit "otra linea");
                               mkHit (lit "Q8") d] ]}
    (Some (lit "LT-1"))
    (sha1_token (fillna (Some (lit "feat-1"))) (fillna (Some (lit "geomdata"))))
    tally0
  = mkTally [lit "Q8"] 0 0.
Proof.
  intros d.
  apply (proj2 (generated_tag_selects_its_entity (lit "Tramo norte")
                  (lit "feat-1") (lit "geomdata"))
           (Some (lit "feat-1")) (Some (lit "geomdata")) eq_refl eq_refl
           ltac:(vm_compute; reflexivity)
           {[ lit "LT-1" := [mkHit (lit "Q7") (lit "otra linea");
                             mkHit (lit "Q8") d] ]}
           (Some (lit "LT-1")) tally0 (mkHit (lit "Q8") d)
           [mkHit (lit "Q7") (lit "otra linea")] []).
  - vm_compute. reflexivity.
  - discriminate.
  - reflexivity.
  - intros h' Hh'. rewrite app_nil_r in Hh'.
    apply list_elem_of_singleton in Hh' as ->. vm_compute. reflexivity.
Defined.

(** The two scripts disagree on coordinates with surrounding white space:
    [generate_qs_csv.py] trims the cell before hashing, the merge does not,
    and then the tag written is not the tag looked for. *)
Example untrimmed_coordinates_change_the_token :
  sha1_token (lit "feat-1") (lit "geomdata ") = lit "190f254572f5"
  ∧ str_in (ext_tag (sha1_token (lit "feat-1") (lit "geomdata ")))
           (qs_description [] (lit "feat-1") (lit "geomdata ")) = false.
Proof. vm_compute. split; reflexivity. Qed.

(** They also disagree on a field that the merge reads as a missing value
    and the generator as text, such as the text NA: the generator hashes
    the text, the merge the empty string, and the tag written is not the
    tag looked for. *)
Example missing_value_text_changes_the_token :
  sha1_token (fillna None) (lit "geomdata") = lit "25672ca05a50"
  ∧ sha1_token (lit "NA") (lit "geomdata") = lit "b58226166a4f"
  ∧ str_in (ext_tag (sha1_token (fillna None) (lit "geomdata")))
           (qs_description [] (lit "NA") (lit "geomdata")) = false.
Proof. vm_compute. split_and!; reflexivity. Qed.

(** ** [as_time_str] *)

Lemma endswith_spec (t s : str) : endswith t s = true ↔ ∃ a, s = a ++ t.
Proof.
  unfold endswith. rewrite startswith_spec. split.
  - intros [b Hb]. exists (reverse b).
    apply (inj reverse). by rewrite reverse_app, reverse_involutive.
  - intros [a ->]. exists (reverse a). by rewrite reverse_app.
Qed.

(** A string of the date shape is not one that starts with a plus sign and
    ends with [/11]: its last three characters hold a hyphen or a line
    feed. *)
Lemma match_date_not_time (is_decimal : N → bool) (s : str) :
  match_date is_decimal s = true →
  s ≠ [] ∧ startswith (lit "+") s && endswith (lit "/11") s = false.
Proof.
  unfold match_date.
  destruct s as [|y1 s]; [by simpl |]. destruct s as [|y2 s]; [by simpl |].
  destruct s as [|y3 s]; [by simpl |]. destruct s as [|y4 s]; [by simpl |].
  destruct s as [|h1 s]; [by simpl |]. destruct s as [|m1 s]; [by simpl |].
  destruct s as [|m2 s]; [by simpl |]. destruct s as [|h2 s]; [by simpl |].
  destruct s as [|d1 s]; [by simpl |]. destruct s as [|d2 s]; [by simpl |].
  destruct s as [|x s].
  - cbn -[forallb]. rewrite orb_false_r, !andb_true_iff, !N.eqb_eq.
    intros [[_ _] ->]. split; [done |].
    apply andb_false_iff. right. unfold endswith.
    change (lit "/11") with [47; 49; 49]. cbn.
    by rewrite !andb_false_r.
  - destruct s as [|z s].
    + cbn -[forallb]. rewrite !andb_true_iff. intros [Hx _].
      apply bool_decide_eq_true in Hx. injection Hx as ->. split; [done |].
      apply andb_false_iff. right. unfold endswith.
      change (lit "/11") with [47; 49; 49]. by cbn.
    + cbn -[forallb last]. done.
Qed.

(** X15. [as_time_str] returns the empty string or a string that starts
    with a plus sign and ends with [/11]; a date [YYYY-MM-DD] becomes
    [+YYYY-MM-DDT00:00:00Z/11]; and applying it twice is applying it once,
    so a time already in that form is kept. *)
Theorem as_time_str_shape_and_idempotence (is_decimal : N → bool) (s : str) :
  (as_time_str is_decimal s = []
   ∨ (startswith (lit "+") (as_time_str is_decimal s) = true
      ∧ endswith (lit "/11") (as_time_str is_decimal s) = true))
  ∧ (match_date is_decimal s = true →
     as_time_str is_decimal s = lit "+" ++ s ++ lit "T00:00:00Z/11")
  ∧ as_time_str is_decimal (as_time_str is_decimal s) = as_time_str is_decimal s.
Proof.
  assert (Hfix : ∀ r : str, startswith (lit "+") r = true →
                   endswith (lit "/11") r = true →
                   as_time_str is_decimal r = r).
  { intros r H1 H2. unfold as_time_str. rewrite H1, H2. simpl.
    destruct r; [done |]. by rewrite bool_decide_eq_false_2. }
  assert (Hdate : startswith (lit "+") (lit "+" ++ s ++ lit "T00:00:00Z/11") = true
                  ∧ endswith (lit "/11") (lit "+" ++ s ++ lit "T00:00:00Z/11") = true).
  { split; [reflexivity |]. apply endswith_spec.
    exists (lit "+" ++ s ++ lit "T00:00:00Z").
    rewrite <- !app_assoc. reflexivity. }
  remember (as_time_str is_decimal s) as r eqn:Hr.
  unfold as_time_str in Hr.
  destruct (bool_decide (s = [])) eqn:Enil.
  { apply bool_decide_eq_true in Enil as ->. subst r.
    split_and!; [by left | done | done]. }
  destruct (startswith (lit "+") s && endswith (lit "/11") s) eqn:Etime.
  { apply andb_true_iff in Etime as [H1 H2]. subst r.
    split_and!; [by right | | by apply Hfix].
    intros Hd. apply match_date_not_time in Hd as [_ Hd].
    by rewrite H1, H2 in Hd. }
  destruct (match_date is_decimal s) eqn:Ed; subst r.
  - destruct Hdate as [H1 H2]. split_and!; [by right | done | by apply Hfix].
  - split_and!; [by left | done | done].
Qed.

Lemma as_time_str_shape_and_idempotence_witness :
  as_time_str unicode_decimal (lit "2024-03-15") = lit "+2024-03-15T00:00:00Z/11".
Proof.
  apply (proj1 (proj2 (as_time_str_shape_and_idempotence unicode_decimal
                         (lit "2024-03-15")))).
  vm_compute. reflexivity.
Defined.

(** ** Choosing the code column *)

#[global] Instance pair_ge_total : Total pair_ge.
Proof.
  intros [s1 c1] [s2 c2]. unfold pair_ge. simpl.
  destruct (Nat.lt_trichotomy s1 s2) as [? | [-> | ?]]; [by right; left | | by left; left].
  destruct (total str_le c1 c2); [right | left]; by right.
Qed.

#[global] Instance pair_ge_trans : Transitive pair_ge.
Proof.
  intros [s1 c1] [s2 c2] [s3 c3]. unfold pair_ge. simpl.
  intros [H12 | [-> H12]] [H23 | [-> H23]]; [left; lia | by left | by left |].
  right. split; [done |]. by transitivity c2.
Qed.

Lemma StronglySorted_lookup {A} (R : relation A) (l : list A) (i j : nat) (x y : A) :
  StronglySorted R l → (i < j)%nat → l !! i = Some x → l !! j = Some y → R x y.
Proof.
  intros Hs. revert i j. induction Hs as [|a l Hs IH Hall]; intros i j Hij Hi Hj;
    [done |].
  destruct j as [|j]; [lia |]. destruct i as [|i]; simpl in *.
  - injection Hi as <-. rewrite Forall_forall in Hall. apply Hall.
    by eapply list_elem_of_lookup_2.
  - apply (IH i j); [lia | done | done].
Qed.

Lemma filter_positive_score (lower : str → str) (columns : list str) :
  List.filter (λ c, negb (score lower c =? 0)%nat) columns
  = filter (λ c, (0 < score lower c)%nat) columns.
Proof.
  induction columns as [|c columns IH]; [done |].
  simpl. rewrite filter_cons, IH.
  destruct (Nat.eqb_spec (score lower c) 0) as [Hz | Hz]; simpl;
    destruct (decide _); (done || lia).
Qed.

Lemma heuristic_code_candidates_perm (lower : str → str) (columns : list str) :
  heuristic_code_candidates lower columns
  ≡ₚ filter (λ c, (0 < score lower c)%nat) columns.
Proof.
  unfold heuristic_code_candidates.
  rewrite merge_sort_Permutation, <- list_fmap_compose, filter_positive_score.
  by rewrite list_fmap_id.
Qed.

(** X16. The heuristic proposes exactly the labels with a positive score,
    each as often as it occurs, ranked by score, the highest first; labels
    of equal score come in descending lexicographic order. *)
Theorem heuristic_candidates_ranked (lower : str → str) (columns : list str) :
  let guesses := heuristic_code_candidates lower columns in
  guesses ≡ₚ filter (λ c, (0 < score lower c)%nat) columns
  ∧ (∀ c, c ∈ guesses ↔ c ∈ columns ∧ (0 < score lower c)%nat)
  ∧ (∀ (i j : nat) (ci cj : str),
       (i < j)%nat → guesses !! i = Some ci → guesses !! j = Some cj →
       (score lower cj ≤ score lower ci)%nat
       ∧ (score lower ci = score lower cj → str_le cj ci)).
Proof.
  intros guesses. split_and!.
  - apply heuristic_code_candidates_perm.
  - intros c. subst guesses. rewrite heuristic_code_candidates_perm.
    rewrite list_elem_of_filter. tauto.
  - intros i j ci cj Hij Hi Hj. subst guesses.
    unfold heuristic_code_candidates in Hi, Hj.
    set (ranked := (λ c, (score lower c, c)) <$> _) in *.
    rewrite list_lookup_fmap in Hi, Hj.
    destruct (merge_sort pair_ge ranked !! i) as [[si ci']|] eqn:Ei; [|done].
    destruct (merge_sort pair_ge ranked !! j) as [[sj cj']|] eqn:Ej; [|done].
    simpl in Hi, Hj. injection Hi as ->. injection Hj as ->.
    assert (Hscore : ∀ k s c, merge_sort pair_ge ranked !! k = Some (s, c) →
                              s = score lower c).
    { intros k s c Hk. apply list_elem_of_lookup_2 in Hk.
      rewrite merge_sort_Permutation in Hk. subst ranked.
      apply list_elem_of_fmap in Hk as (c0 & [= -> ->] & _). done. }
    pose proof (StronglySorted_lookup pair_ge _ i j _ _
                  (StronglySorted_merge_sort pair_ge ranked) Hij Ei Ej) as Hge.
    rewrite (Hscore _ _ _ Ei), (Hscore _ _ _ Ej) in Hge.
    unfold pair_ge in Hge. simpl in Hge.
    destruct Hge as [Hlt | [Heq Hle]]; (split; [lia | (done || lia)]).
Qed.

Lemma heuristic_candidates_ranked_witness :
  (score ascii_lower (lit "ID") ≤ score ascii_lower (lit "Codigo_Linea"))%nat
  ∧ (score ascii_lower (lit "Codigo_Linea") = score ascii_lower (lit "ID") →
     str_le (lit "ID") (lit "Codigo_Linea")).
Proof.
  apply (proj2 (proj2 (heuristic_candidates_ranked ascii_lower
           [lit "Nombre"; lit "ID"; lit "Codigo_Linea"; lit "code";
            lit "id_circuito"]))
           0%nat 3%nat (lit "Codigo_Linea") (lit "ID")).
  - lia.
  - vm_compute. reflexivity.
  - vm_compute. reflexivity.
Defined.

Example heuristic_code_candidates_example :
  heuristic_code_candidates ascii_lower
    [lit "Nombre"; lit "ID"; lit "Codigo_Linea"; lit "code"; lit "id_circuito"]
  = [lit "Codigo_Linea"; lit "id_circuito"; lit "code"; lit "ID"]
  ∧ heuristic_code_candidates ascii_lower
      [lit "a_id"; lit "ID"; lit "id_x"; lit "code"; lit "Code"; lit "code"]
    = [lit "code"; lit "code"; lit "Code"; lit "id_x"; lit "a_id"; lit "ID"].
Proof. vm_compute. split; reflexivity. Qed.

Example as_time_str_examples :
  as_time_str unicode_decimal (lit "2024-03-15" ++ [10])
  = lit "+2024-03-15" ++ [10] ++ lit "T00:00:00Z/11"
  ∧ as_time_str unicode_decimal (lit "2024-3-15") = []
  ∧ as_time_str unicode_decimal (lit "+x/11") = lit "+x/11".
Proof. vm_compute. split_and!; reflexivity. Qed.

Lemma find_present_Some (df : DataFrame) (configured : list str) (c : str) :
  List.find (λ c, has_column df c) configured = Some c →
  c ∈ configured ∧ c ∈ labels df.
Proof.
  intros [Hin Hhas]%find_some. split; [by apply list_elem_of_In |].
  unfold has_column in Hhas. by apply bool_decide_eq_true in Hhas.
Qed.

Lemma find_present_None (df : DataFrame) (configured : list str) :
  List.find (λ c, has_column df c) configured = None ↔
  ∀ c, c ∈ configured → c ∉ labels df.
Proof.
  split.
  - intros Hnone c Hc. apply list_elem_of_In in Hc.
    pose proof (find_none _ _ Hnone c Hc) as Hf. simpl in Hf.
    unfold has_column in Hf. by apply bool_decide_eq_false in Hf.
  - intros Hall. destruct (List.find _ configured) as [c|] eqn:E; [|done].
    apply find_present_Some in E as [Hc Hl]. by destruct (Hall c Hc).
Qed.

(** X17. [select_code_column] only ever returns a label of the table. A
    non-empty override that is a label wins; otherwise the first configured
    candidate that is a label; otherwise the best heuristic guess; and it
    raises exactly when the override is unusable, no configured candidate is
    a label and no label has a positive score. *)
Theorem select_code_column_choice (lower : str → str) (df : DataFrame)
    (override : option str) (configured : list str) :
  let usable := match override with
                | Some o => o ≠ [] ∧ o ∈ labels df
                | None => False
                end in
  (∀ c, select_code_column lower df override configured = Some c →
        c ∈ labels df)
  ∧ (usable → select_code_column lower df override configured = override)
  ∧ (¬ usable → ∀ c, List.find (λ c, has_column df c) configured = Some c →
       select_code_column lower df override configured = Some c)
  ∧ (¬ usable → (∀ c, c ∈ configured → c ∉ labels df) →
       select_code_column lower df override configured
       = head (heuristic_code_candidates lower (labels df)))
  ∧ (select_code_column lower df override configured = None
     ↔ ¬ usable ∧ (∀ c, c ∈ configured → c ∉ labels df)
       ∧ (∀ c, c ∈ labels df → score lower c = 0%nat)).
Proof.
  intros usable.
  assert (Hgiven : match override with
                   | Some o => negb (bool_decide (o = [])) && has_column df o
                   | None => false
                   end = true ↔ usable).
  { subst usable. destruct override as [o|]; [|done].
    unfold has_column.
    rewrite andb_true_iff, negb_true_iff, bool_decide_eq_false,
      bool_decide_eq_true. done. }
  assert (Hhead : head (heuristic_code_candidates lower (labels df)) = None
                  ↔ ∀ c, c ∈ labels df → score lower c = 0%nat).
  { pose proof (heuristic_code_candidates_perm lower (labels df)) as Hp.
    destruct (heuristic_code_candidates lower (labels df)) as [|g gs]; simpl.
    - split; [|done]. intros _ c Hc.
      symmetry in Hp. apply Permutation_nil_r in Hp.
      destruct (decide (0 < score lower c)%nat) as [Hpos | ?]; [|lia].
      assert (Hin : c ∈ filter (λ c, (0 < score lower c)%nat) (labels df))
        by (by apply list_elem_of_filter).
      rewrite Hp in Hin. by apply elem_of_nil in Hin.
    - split; [done |]. intros Hall. exfalso.
      assert (Hg : g ∈ filter (λ c, (0 < score lower c)%nat) (labels df))
        by (rewrite <- Hp; by left).
      apply list_elem_of_filter in Hg as [Hpos Hg]. specialize (Hall g Hg). lia. }
  assert (Hguess : ∀ c, head (heuristic_code_candidates lower (labels df)) = Some c →
                        c ∈ labels df).
  { intros c Hc. apply head_Some in Hc as [gs Hgs].
    assert (Hin : c ∈ heuristic_code_candidates lower (labels df))
      by (rewrite Hgs; by left).
    rewrite heuristic_code_candidates_perm in Hin.
    by apply list_elem_of_filter in Hin as [_ ?]. }
  unfold select_code_column.
  destruct (match override with
            | Some o => negb (bool_decide (o = [])) && has_column df o
            | None => false
            end) eqn:Eg.
  - assert (Hu : usable) by (by apply Hgiven).
    split_and!; [| done | done | done |].
    + intros c ->. subst usable. simpl in Hu. tauto.
    + split; [|tauto]. intros ->. by subst usable.
  - assert (Hu : ¬ usable) by (rewrite <- Hgiven; congruence).
    destruct (List.find (λ c, has_column df c) configured) as [c0|] eqn:Ef.
    + apply find_present_Some in Ef as [Hc0 Hl0].
      split_and!; [by intros c [= <-] | done | by intros _ c [= <-] | |].
      * intros _ Hall. by destruct (Hall c0 Hc0).
      * split; [done |]. intros (_ & Hall & _). by destruct (Hall c0 Hc0).
    + pose proof (proj1 (find_present_None df configured) Ef) as Hnone.
      split_and!; [exact Hguess | done | done | done |].
      rewrite Hhead. tauto.
Qed.

Lemma select_code_column_choice_witness :
  select_code_column ascii_lower
    (mkDF 0 [(lit "Nombre", []); (lit "id_circuito", []); (lit "Codigo", [])])
    (Some (lit "id_circuito")) [lit "Codigo"]
  = Some (lit "id_circuito").
Proof.
  apply (proj1 (proj2 (select_code_column_choice ascii_lower
           (mkDF 0 [(lit "Nombre", []); (lit "id_circuito", []); (lit "Codigo", [])])
           (Some (lit "id_circuito")) [lit "Codigo"]))).
  split; [discriminate |]. apply (bool_decide_unpack _). by vm_compute.
Defined.

(** ** The values list of a query *)

Lemma quotes_of_literal (c : str) :
  filter (λ x : N, x = 34) ([34] ++ List.filter (λ x, negb (x =? 34)) c ++ [34])
  = [34; 34].
Proof.
  rewrite !filter_app. change (filter _ [34]) with [34].
  replace (filter (λ x : N, x = 34) (List.filter (λ x, negb (x =? 34)) c))
    with (@nil N); [done |].
  induction c as [|x c IH]; [done |]. simpl.
  destruct (N.eqb_spec x 34) as [-> | Hne]; simpl; [done |].
  by rewrite filter_cons_False.
Qed.

Lemma quotes_of_join (parts : list str) :
  Forall (λ p, filter (λ x : N, x = 34) p = [34; 34]) parts →
  length (filter (λ x : N, x = 34) (join (lit " ") parts)) = (2 * length parts)%nat.
Proof.
  induction 1 as [|p parts Hp Hall IH]; [done |].
  destruct parts as [|p' parts].
  - simpl. by rewrite Hp.
  - change (join (lit " ") (p :: p' :: parts))
      with (p ++ lit " " ++ join (lit " ") (p' :: parts)).
    rewrite !filter_app, !length_app, Hp, IH. simpl. lia.
Qed.

(** X18. In the values list of a query every double quote is a delimiter:
    their number is twice the number of codes that are not blank, since
    quotes inside a code are removed and blank codes are left out; a batch
    of blank codes gives the empty list. *)
Theorem values_list_quotes_are_delimiters (codes : list str) :
  length (filter (λ x : N, x = 34) (build_values_list codes))
  = (2 * length (filter (λ c, strip c ≠ []) codes))%nat
  ∧ ((∀ c, c ∈ codes → strip c = []) → build_values_list codes = []).
Proof.
  assert (Hfilter : List.filter (λ c, negb (bool_decide (strip c = []))) codes
                    = filter (λ c, strip c ≠ []) codes).
  { induction codes as [|c codes IH]; [done |]. simpl. rewrite filter_cons, IH.
    destruct (decide (strip c = [])) as [Hc | Hc].
    - rewrite bool_decide_eq_true_2 by done. simpl.
      by destruct (decide (strip c ≠ [])).
    - rewrite bool_decide_eq_false_2 by done. simpl.
      by destruct (decide (strip c ≠ [])). }
  unfold build_values_list. rewrite Hfilter. split.
  - rewrite quotes_of_join; [by rewrite length_fmap |].
    apply Forall_fmap, Forall_forall. intros c _. apply quotes_of_literal.
  - intros Hblank.
    replace (filter (λ c, strip c ≠ []) codes) with (@nil str); [done |].
    symmetry. clear Hfilter. induction codes as [|c codes IH]; [done |].
    rewrite filter_cons_False by (intros Hne; apply Hne, Hblank; by left).
    apply IH. intros c' Hc'. apply Hblank. by right.
Qed.

Lemma values_list_quotes_are_delimiters_witness :
  build_values_list [lit "  "; []; [9; 10]] = [].
Proof.
  apply (proj2 (values_list_quotes_are_delimiters [lit "  "; []; [9; 10]])).
  intros c Hc. rewrite !elem_of_cons in Hc.
  destruct Hc as [-> | [-> | [-> | Hc]]]; [reflexivity.. | by apply elem_of_nil in Hc].
Defined.

Example build_values_list_example :
  build_values_list [lit "LT-1"; lit "  "; [76; 34; 84]]
  = [34] ++ lit "LT-1" ++ [34; 32; 34] ++ lit "LT" ++ [34].
Proof. vm_compute. reflexivity. Qed.

(** ** [chunked] *)

(** X19. [chunked] is the batching of [main]. A zero size raises, a
    negative size gives no chunk, an empty list gives no chunk, and a list
    no longer than a positive size comes back as one chunk; with a positive
    size the chunks put together are the list. *)
Theorem chunked_edges (codes : list str) (n : Z) :
  chunked codes n = batches_of codes n
  ∧ (n = 0%Z → chunked codes n = None)
  ∧ ((n < 0)%Z → chunked codes n = Some [])
  ∧ (n ≠ 0%Z → chunked [] n = Some (@nil (list str)))
  ∧ ((0 < n)%Z → codes ≠ [] → (Z.of_nat (length codes) ≤ n)%Z →
     chunked codes n = Some [codes])
  ∧ ((0 < n)%Z → ∃ chunks, chunked codes n = Some chunks ∧ concat chunks = codes).
Proof.
  assert (Heq : ∀ l : list str, chunked l n = batches_of l n) by done.
  split_and!; [done | | | | |].
  - intros ->. done.
  - intros Hn. rewrite Heq. by apply batches_of_nonpositive.
  - intros Hn. rewrite Heq. by apply batches_of_nil.
  - intros Hn Hne Hlen. rewrite Heq, (batches_of_chunks codes n Hn).
    assert (Hpos : (0 < length codes)%nat) by (destruct codes; [done | simpl; lia]).
    replace ((length codes + Z.to_nat n - 1) / Z.to_nat n)%nat with 1%nat.
    { cbn [seq fmap list_fmap]. rewrite Nat.mul_0_l, drop_0.
      by rewrite take_ge by lia. }
    apply (Nat.div_unique _ _ 1 (length codes - 1)); lia.
  - intros Hn. rewrite Heq, (batches_of_chunks codes n Hn).
    eexists. split; [done |]. apply chunks_concat.
    set (m := Z.to_nat n). assert (0 < m)%nat by (subst m; lia).
    pose proof (Nat.div_mod (length codes + m - 1) m ltac:(lia)).
    pose proof (Nat.mod_upper_bound (length codes + m - 1) m ltac:(lia)).
    nia.
Qed.

Lemma chunked_edges_witness :
  chunked [lit "a"; lit "b"] 75 = Some [[lit "a"; lit "b"]].
Proof.
  apply (proj1 (proj2 (proj2 (proj2 (proj2
           (chunked_edges [lit "a"; lit "b"] 75)))))); [lia | done | simpl; lia].
Defined.

(** ** The hit index of a run *)

(** X20. Hits accumulate across batches in the order of arrival: when the
    endpoint answers every query at the first attempt, the hits a code has
    after the batches are those it had before, followed by the hits of its
    bindings in the first response, then in the second, and so on. *)
Theorem hits_accumulate_across_batches `{Arith F} (net : str → Z → posted)
    (match_props : list str) (lang : str) (retries : Z) (backoff : F)
    (data : str → list Binding) (batches : list (list str))
    (hits0 hits : gmap str (list Hit)) (trace0 trace : list (event F))
    (code : str) :
  (∀ q, attempt_body (net q 1%Z) = inr (data q)) →
  fetch_hits net match_props lang retries backoff batches hits0 trace0
  = inr (hits, trace) →
  default [] (hits !! code)
  = default [] (hits0 !! code)
    ++ ((λ b, mkHit (qid_from_uri (b_item b)) (b_desc b))
          <$> filter (λ b, b_code b = code ∧ b_code b ≠ [] ∧ b_item b ≠ [])
                (batches ≫= λ batch,
                   data (build_sparql_for_codes unicode_decimal match_props
                           batch lang))).
Proof.
  intros Hok. rewrite (fetch_hits_all_first _ _ _ _ _ data batches Hok).
  intros [= <- _]. clear trace trace0.
  revert hits0. induction batches as [|batch batches IH]; intros hits0; simpl.
  - by rewrite app_nil_r.
  - rewrite IH, add_bindings_hits, <- app_assoc. f_equal.
    by rewrite filter_app, fmap_app.
Qed.

Lemma hits_accumulate_across_batches_witness :
  let data := λ q : str,
    if str_in (lit "LT-1") q
    then [mkBinding (lit "LT-1") (lit "http://w/entity/Q1") []]
    else [mkBinding (lit "LT-1") (lit "http://w/entity/Q2") [];
          mkBinding (lit "LT-2") (lit "http://w/entity/Q3") []] in
  default [] (({[ lit "LT-1" := [mkHit (lit "Q1") []; mkHit (lit "Q2") []];
                  lit "LT-2" := [mkHit (lit "Q3") []] ]}
               : gmap str (list Hit)) !! lit "LT-1")
  = [mkHit (lit "Q1") []; mkHit (lit "Q2") []].
Proof.
  intros data.
  rewrite (hits_accumulate_across_batches (H := Arith_Q)
             (λ q _, PostReturned (mkResponse 200 (Some (data q))))
             [lit "P528"] (lit "es") 5 (QArith_base.Qmake 8 5) data
             [[lit "LT-1"]; [lit "LT-2"]] ∅
             {[ lit "LT-1" := [mkHit (lit "Q1") []; mkHit (lit "Q2") []];
                lit "LT-2" := [mkHit (lit "Q3") []] ]}
             [] [Post 1; Post 1] (lit "LT-1")).
  - vm_compute. reflexivity.
  - intros q. reflexivity.
  - vm_compute. reflexivity.
Defined.

Lemma add_bindings_empty_code (bs : list Binding) :
  ∀ code_hits : gmap str (list Hit),
    add_bindings code_hits bs !! [] = code_hits !! [].
Proof.
  unfold add_bindings. induction bs as [|b bs IH]; intros code_hits; simpl;
    [done |].
  rewrite IH. unfold add_binding.
  destruct (b_code b) as [|x cs] eqn:Ec; [done |].
  destruct (b_item b) as [|y it]; [done |].
  by apply lookup_insert_ne.
Qed.

Lemma fetch_hits_empty_code `{Arith F} (net : str → Z → posted)
    (match_props : list str) (lang : str) (retries : Z) (backoff : F)
    (batches : list (list str)) :
  ∀ (hits0 hits : gmap str (list Hit)) (trace0 trace : list (event F)),
    fetch_hits net match_props lang retries backoff batches hits0 trace0
    = inr (hits, trace) →
    hits !! [] = hits0 !! [].
Proof.
  induction batches as [|batch batches IH]; intros hits0 hits trace0 trace; simpl.
  - by intros [= <- _].
  - destruct (http_post_sparql _ _ _) as [[[e | data] tr]|]; [done | | done].
    intros Hrest. rewrite (IH _ _ _ _ Hrest). apply add_bindings_empty_code.
Qed.

(** X21. In a run on a table with distinct trimmed labels that ends with a
    table, a row whose code cell is present but blank is always left
    unresolved with the empty identifier, whatever the endpoint answered:
    the empty code is never a key of the hit index. *)
Theorem blank_code_rows_are_unresolved `{Arith F} (net : str → Z → posted)
    (df0 : DataFrame) (code_col : str) (match_props : list str) (lang : str)
    (batch_size retries : Z) (backoff : F)
    (out : DataFrame) (tally : Tally) (trace : list (event F))
    (col : list cell) (i : nat) (c : str) :
  NoDup (labels (strip_labels df0)) →
  main net df0 code_col match_props lang batch_size retries backoff
  = inr (out, tally, trace) →
  get_column (strip_labels df0) code_col = Some col →
  col !! i = Some (Some c) →
  strip c = [] →
  chosen tally !! i = Some []
  ∧ ∀ (code_hits : gmap str (list Hit)) (token : str) (st : Tally),
      code_hits !! [] = None →
      resolve_row code_hits (Some c) token st
      = mkTally (chosen st ++ [[]]) (S (unresolved st)) (ambiguous st).
Proof.
  intros _ Hmain Hcol Hi Hblank.
  assert (Hrow : ∀ (code_hits : gmap str (list Hit)) (token : str) (st : Tally),
            code_hits !! [] = None →
            resolve_row code_hits (Some c) token st
            = mkTally (chosen st ++ [[]]) (S (unresolved st)) (ambiguous st)).
  { intros code_hits token st Hnone. unfold resolve_row. simpl py_str.
    by rewrite Hblank, Hnone. }
  split; [|exact Hrow].
  destruct (main_output _ _ _ _ _ _ _ _ _ _ _ Hmain)
    as (col' & batches & code_hits & Hcol' & _ & Hfetch & _ & _ & Hrows).
  rewrite Hcol in Hcol'. injection Hcol' as <-.
  destruct (Hrows i (Some c) Hi) as (token & _ & ->).
  rewrite Hrow; [done |].
  rewrite (fetch_hits_empty_code _ _ _ _ _ _ _ _ _ _ Hfetch). apply lookup_empty.
Qed.

Lemma blank_code_rows_are_unresolved_witness :
  chosen (mkTally [lit "Q10"; []] 1 0) !! 1%nat = Some [].
Proof.
  apply (blank_code_rows_are_unresolved (H := Arith_Q)
           (λ _ _, PostReturned (mkResponse 200
              (Some [mkBinding (lit "LT-100") (lit "http://w/entity/Q10") [];
                     mkBinding [] (lit "http://w/entity/Q11") []])))
           (mkDF 2 [(lit "Codigo", [Some (lit "LT-100"); Some (lit "  ")])])
           (lit "Codigo") [lit "P528"] (lit "es") 75 5 (QArith_base.Qmake 8 5)
           (mkDF 2 [(lit "Codigo", [Some (lit "LT-100"); Some (lit "  ")]);
                    (lit "wikidata", [Some (lit "Q10"); Some []])])
           (mkTally [lit "Q10"; []] 1 0) [Post 1]
           [Some (lit "LT-100"); Some (lit "  ")] 1 (lit "  ")).
  - apply (bool_decide_unpack _). by vm_compute.
  - vm_compute. reflexivity.
  - vm_compute. reflexivity.
  - reflexivity.
  - vm_compute. reflexivity.
Defined.

(** A row whose code cell is missing is looked up under the code [nan],
    the text of a missing value, although that cell is not among the codes
    queried. *)
Lemma missing_code_row_looked_up_as_nan (code_hits : gmap str (list Hit))
    (token : str) (st : Tally) (col : list cell) :
  resolve_row code_hits None token st
  = resolve_row code_hits (Some (lit "nan")) token st
  ∧ ((∀ c, c ∈ col → c = None) → codes_of col = []).
Proof.
  split; [reflexivity |]. intros Hall. apply codes_of_nil.
  intros c Hc. by rewrite (Hall c Hc).
Qed.

(** ** Labels written by [generate_qs_csv.py] *)

Lemma lstrip_suffix (s : str) :
  ∃ p, s = p ++ lstrip s ∧ Forall (λ c, isspace c = true) p.
Proof.
  induction s as [|x s (p & Hp & Hall)]; [by exists [] |]. simpl.
  destruct (isspace x) eqn:Ex.
  - exists (x :: p). split; [simpl; by f_equal | by constructor].
  - by exists [].
Qed.

Lemma lstrip_fixed (s : str) :
  (∀ c r, s = c :: r → isspace c = false) → lstrip s = s.
Proof.
  destruct s as [|c r]; [done |]. intros Hc. simpl. by rewrite (Hc c r).
Qed.

Lemma lstrip_idem (s : str) : lstrip (lstrip s) = lstrip s.
Proof. apply lstrip_fixed. intros c r. apply lstrip_head. Qed.

(** Trimming twice is trimming once. *)
Lemma strip_idem (s : str) : strip (strip s) = strip s.
Proof.
  assert (Hl : lstrip (strip s) = strip s).
  { apply lstrip_fixed. intros c r Hc.
    unfold strip, rstrip in Hc.
    destruct (lstrip_suffix (reverse (lstrip s))) as (p & Hp & _).
    apply (f_equal reverse) in Hp.
    rewrite reverse_involutive, reverse_app, Hc in Hp.
    by apply (lstrip_head s c (r ++ reverse p)). }
  unfold strip at 1. rewrite Hl. unfold strip, rstrip.
  by rewrite reverse_involutive, lstrip_idem.
Qed.

(** X22. The label [generate_qs_csv.py] writes for a row (its labels and its
    P528 value) is never empty and has no surrounding white space, and the
    identifier cell it writes is empty or starts with Q. For a row with a
    code the label is the trimmed code as that script read it
    ([keep_default_na=False]). The merge reads its table with the default
    handling of missing values, so its cell [c] for that row is given
    apart: when the merge reads the cell as present with the same text, the
    label is the code under which it looks the row up and one of the codes
    it queries; when it reads the cell as missing (as for the text NA), it
    queries no code for the row and looks it up under [nan]. *)
Theorem label_is_the_lookup_code (code_cell qid_cell : str) :
  qs_label code_cell ≠ []
  ∧ strip (qs_label code_cell) = qs_label code_cell
  ∧ (strip code_cell ≠ [] → qs_label code_cell = strip code_cell)
  ∧ (strip code_cell ≠ [] →
     ∀ c : cell, c = Some code_cell →
       qs_label code_cell = strip (py_str c)
       ∧ qs_label code_cell ∈ codes_of [c])
  ∧ (∀ c : cell, c = None →
       codes_of [c] = [] ∧ strip (py_str c) = lit "nan")
  ∧ (strip code_cell = [] → qs_label code_cell = lit "Linea/circuito del SIN")
  ∧ (qs_qid_cell qid_cell = []
     ∨ (qs_qid_cell qid_cell = qid_cell ∧ ∃ r, qid_cell = 81 :: r)).
Proof.
  unfold qs_label. split_and!.
  - case_bool_decide; [done | done].
  - case_bool_decide; [by vm_compute | apply strip_idem].
  - intros Hne. by rewrite bool_decide_eq_false_2.
  - intros Hne c ->. rewrite bool_decide_eq_false_2 by done. split; [done |].
    apply (proj1 (codes_of_spec [Some code_cell])). split; [done |].
    exists (Some code_cell). split; [by left | done].
  - intros c ->. split; [|by vm_compute].
    apply codes_of_nil. intros c Hc.
    apply list_elem_of_singleton in Hc as ->. reflexivity.
  - intros Hnil. by rewrite bool_decide_eq_true_2.
  - unfold qs_qid_cell. destruct (startswith (lit "Q") qid_cell) eqn:Eq; [|by left].
    right. split; [done |].
    apply startswith_spec in Eq as [r ->]. by exists r.
Qed.

Lemma label_is_the_lookup_code_witness :
  qs_label (lit " LT-100 ") = strip (py_str (Some (lit " LT-100 ")))
  ∧ qs_label (lit " LT-100 ") ∈ codes_of [Some (lit " LT-100 ")].
Proof.
  apply (proj1 (proj2 (proj2 (proj2
           (label_is_the_lookup_code (lit " LT-100 ") []))))).
  - vm_compute. discriminate.
  - reflexivity.
Defined.
